(** * SOCKS5 request engine of mieru ([pkg/socks5/request.go])

    A shallow embedding of the request parser, the reply writer, the
    command dispatcher and the two pumps of a UDP-associate session,
    together with the properties the specification states about them.

    Conventions.
    - A wire byte is a [Byte.byte]; Go's [int] is [Z] (all the values that
      occur stay far from the 64-bit bounds), [uint8] arithmetic is written
      with its wrap-around ([add8]), [uint16(x)] is [x mod 2^16].
    - A Go [string] is a sequence of bytes, here [String.string].
    - An [io.Reader] over a finite input is the list of bytes still to be
      read; reading is a state-and-error monad over that list.
    - Calls that leave the process (writes to the connection, UDP writes,
      dialing, resolving, counters) are recorded in a trace of [event]s;
      what the outside world answers is supplied by an environment. *)

From Stdlib Require Import Strings.String Strings.Ascii Strings.Byte.
From Stdlib Require Import ZArith List Bool Lia.
Import ListNotations.
Open Scope string_scope.
Open Scope list_scope.
Open Scope Z_scope.

(** ** Bytes and fixed-width arithmetic *)

Module Bytes.

(** [int(b)] for a byte [b]. *)
Definition b2z (b : byte) : Z := Z.of_N (Byte.to_N b).

(** [byte(x)]: the conversion keeps the low eight bits. *)
Definition z2b (x : Z) : byte :=
  match Byte.of_N (Z.to_N (x mod 256)) with
  | Some b => b
  | None => x00
  end.

(** [a + b] at type [uint8]. *)
Definition add8 (a b : byte) : byte := z2b (b2z a + b2z b).

(** [uint16(x)]. *)
Definition uint16 (x : Z) : Z := x mod 65536.

Definition byte_eqb (a b : byte) : bool := Byte.eqb a b.

(** [len(s)], [s[i]] and [s[lo:hi]] for a slice whose capacity equals its
    length.  Slicing out of range panics: [None]. *)
Definition len {A} (s : list A) : Z := Z.of_nat (length s).

Definition idx (s : list byte) (i : Z) : byte := nth (Z.to_nat i) s x00.

Definition slice (s : list byte) (lo hi : Z) : option (list byte) :=
  if (0 <=? lo) && (lo <=? hi) && (hi <=? len s)
  then Some (firstn (Z.to_nat (hi - lo)) (skipn (Z.to_nat lo) s))
  else None.

(** [make([]byte, n)]. *)
Definition make (n : Z) : list byte := repeat x00 (Z.to_nat n).

End Bytes.
Import Bytes.

(** ** Addresses *)

Module IP.

(** [net.IP] is a byte slice; [nil] and the empty slice are both []. *)
Definition t := list byte.

Definition isZeros (p : list byte) : bool := forallb (byte_eqb x00) p.

(** [net.IP.To4] of the Go standard library: a 4-byte address is returned
    as is, a 16-byte address [::ffff:a.b.c.d] yields its last four bytes,
    anything else yields [nil]. *)
Definition To4 (ip : t) : option t :=
  if len ip =? 4 then Some ip
  else if (len ip =? 16) && isZeros (firstn 10 ip)
          && byte_eqb (idx ip 10) xff && byte_eqb (idx ip 11) xff
       then Some (firstn 4 (skipn 12 ip))
       else None.

Definition v4InV6Prefix : list byte :=
  [x00; x00; x00; x00; x00; x00; x00; x00; x00; x00; xff; xff].

(** [net.IP.To16]. *)
Definition To16 (ip : t) : option t :=
  if len ip =? 4 then Some (v4InV6Prefix ++ ip)
  else if len ip =? 16 then Some ip
  else None.

Definition IPv6loopback : t :=
  [x00; x00; x00; x00; x00; x00; x00; x00; x00; x00; x00; x00; x00; x00; x00; x01].

Fixpoint bytes_eqb (a b : list byte) : bool :=
  match a, b with
  | [], [] => true
  | x :: a', y :: b' => byte_eqb x y && bytes_eqb a' b'
  | _, _ => false
  end.

(** [net.IP.IsLoopback]: [127.0.0.0/8] in either form, or [::1]. *)
Definition IsLoopback (ip : t) : bool :=
  match To4 ip with
  | Some ip4 => byte_eqb (idx ip4 0) x7f
  | None => bytes_eqb ip IPv6loopback
  end.

End IP.

(** [AddrSpec]: a destination or bound address. *)
Record AddrSpec := mkAddrSpec {
  FQDN : string;
  IP : IP.t;
  Port : Z
}.

(** The host part [AddrSpec.Address] hands to the dialer: the IP when there
    is one, the FQDN otherwise (the rendering to text is left out). *)
Inductive host := HostIP (ip : IP.t) | HostName (name : string).

Definition Address (a : AddrSpec) : host * Z :=
  if negb (len (IP a) =? 0) then (HostIP (IP a), Port a)
  else (HostName (FQDN a), Port a).

(** ** Errors *)

(** An error made outside this package (by [io], [net], the resolver, the
    tunnel or package [stderror]): its dynamic type and its text. *)
Record ext_error := mkExt {
  ext_type : string;
  ext_text : string
}.

Inductive fmt_arg :=
| ArgByte (b : byte)
| ArgString (s : string)
| ArgAddr (a : option AddrSpec).

(** [fmt.Errorf format args]: [Errorf] when the format has no [%w],
    [Wrapf] when it has one, whose operand is kept apart from the other
    arguments. *)
Inductive error :=
| Ext (e : ext_error)
| Errorf (format : string) (args : list fmt_arg)
| Wrapf (format : string) (args : list fmt_arg) (inner : error).

(** The concrete type behind the interface value, as [fmt.Errorf] and
    [errors.New] choose it. *)
Definition dyn_type (e : error) : string :=
  match e with
  | Ext x => ext_type x
  | Errorf _ _ => "*errors.errorString"
  | Wrapf _ _ _ => "*fmt.wrapError"
  end.

Definition io_EOF : error := Ext (mkExt "*errors.errorString" "EOF").
Definition io_ErrUnexpectedEOF : error :=
  Ext (mkExt "*errors.errorString" "unexpected EOF").

Definition unrecognizedAddrType : error :=
  Errorf "unrecognized address type" [].

(** ** Constants *)

Definition ConnectCommand : byte := x01.
Definition BindCommand : byte := x02.
Definition AssociateCommand : byte := x03.
Definition ipv4Address : byte := x01.
Definition fqdnAddress : byte := x03.
Definition ipv6Address : byte := x04.

Definition successReply : byte := x00.
Definition serverFailure : byte := x01.
Definition ruleFailure : byte := x02.
Definition networkUnreachable : byte := x03.
Definition hostUnreachable : byte := x04.
Definition connectionRefused : byte := x05.
Definition ttlExpired : byte := x06.
Definition commandNotSupported : byte := x07.
Definition addrTypeNotSupported : byte := x08.

(** Modelled from the spec: the constant [socks5Version] is declared in
    another file of the package; the specification fixes the protocol
    version byte to 5. *)
Definition socks5Version : byte := x05.

(** ** Reading from a stream *)

Module Reader.

(** What is left of the input.  The input is a finite sequence of bytes:
    a read fails only where the input ends.  A connection can fail a read
    with another error; the functions below return it from the same
    places, in the same way. *)
Definition stream := list byte.

Definition M (A : Type) : Type := stream -> (error + A) * stream.

Definition ret {A} (a : A) : M A := fun s => (inr a, s).
Definition fail {A} (e : error) : M A := fun s => (inl e, s).
Definition bind {A B} (m : M A) (k : A -> M B) : M B :=
  fun s =>
    match m s with
    | (inl e, s') => (inl e, s')
    | (inr a, s') => k a s'
    end.

(** [io.ReadFull(r, buf)] with [len(buf) = n]: exactly [n] bytes, or an
    error after taking whatever was left ([io.EOF] when nothing was,
    [io.ErrUnexpectedEOF] otherwise).  Nothing is read when [n = 0]. *)
Definition ReadFull (n : nat) : M (list byte) :=
  fun s =>
    if (n <=? length s)%nat then (inr (firstn n s), skipn n s)
    else match s with
         | [] => (inl io_EOF, [])
         | _ :: _ => (inl io_ErrUnexpectedEOF, [])
         end.

End Reader.
Import Reader.

Notation "x <- m ;; k" := (bind m (fun x => k))
  (at level 61, m at next level, right associativity).

(** [readAddrSpec]: one type byte, the address of that type, two port bytes. *)
Definition readAddrSpec : M AddrSpec :=
  addrType <- ReadFull 1 ;;
  let t := idx addrType 0 in
  if byte_eqb t ipv4Address then
    addr <- ReadFull 4 ;;
    port <- ReadFull 2 ;;
    ret (mkAddrSpec "" addr
           (Z.lor (Z.shiftl (b2z (idx port 0)) 8) (b2z (idx port 1))))
  else if byte_eqb t ipv6Address then
    addr <- ReadFull 16 ;;
    port <- ReadFull 2 ;;
    ret (mkAddrSpec "" addr
           (Z.lor (Z.shiftl (b2z (idx port 0)) 8) (b2z (idx port 1))))
  else if byte_eqb t fqdnAddress then
    addrLen <- ReadFull 1 ;;
    fqdn <- ReadFull (Z.to_nat (b2z (idx addrLen 0))) ;;
    port <- ReadFull 2 ;;
    ret (mkAddrSpec (string_of_list_byte fqdn) []
           (Z.lor (Z.shiftl (b2z (idx port 0)) 8) (b2z (idx port 1))))
  else fail unrecognizedAddrType.

(** [Request]; [AuthContext] and [RemoteAddr] are never set or read by the
    functions below and are left out.  [DestAddr] is never nil once
    [NewRequest] has returned a request. *)
Record Request := mkRequest {
  Version : byte;
  Command : byte;
  DestAddr : AddrSpec
}.

(** [NewRequest]. *)
Definition NewRequest : M Request :=
  fun s =>
    match ReadFull 3 s with
    | (inl e, s') => (inl (Wrapf "failed to get command version: %w" [] e), s')
    | (inr header, s') =>
        if negb (byte_eqb (idx header 0) socks5Version)
        then (inl (Errorf "unsupported command version: %v"
                          [ArgByte (idx header 0)]), s')
        else
          match readAddrSpec s' with
          | (inl e, s'') => (inl e, s'')
          | (inr dest, s'') =>
              (inr (mkRequest socks5Version (idx header 1) dest), s'')
          end
    end.

(** ** The outside world *)

(** The counters of package [metrics] this file increments. *)
Inductive counter :=
| Socks5DNSResolveErrors
| Socks5UnsupportedCommandErrors
| Socks5ConnectionRefusedErrors
| Socks5NetworkUnreachableErrors
| Socks5HostUnreachableErrors
| Socks5HandshakeErrors
| Socks5UDPAssociateErrors
| UDPAssociateOutPkts
| UDPAssociateOutBytes
| UDPAssociateInPkts
| UDPAssociateInBytes.

(** [net.TCPAddr] and [net.UDPAddr]: an address and a port. *)
Record NetAddr := mkNetAddr {
  net_IP : IP.t;
  net_Port : Z
}.

(** One call that leaves the handler. *)
Inductive event :=
| EvAdd (c : counter) (delta : Z)
| EvResolve (name : string)
| EvDial (target : host * Z)
| EvConnWrite (msg : list byte)
| EvBidiCopy
| EvCloseTarget
| EvListenUDP
| EvResolveUDPAddr (name : string) (port : Z)
| EvWriteToUDP (payload : list byte) (dst : NetAddr)
| EvTunnelWrite (payload : list byte)
| EvCloseUDP.

(** How a handler ends: it returns ([nil] or an error), or a goroutine
    panics, or the two pumps are not both through yet. *)
Inductive outcome :=
| Returned (err : option error)
| Panicked
| Waiting.

(** [strings.Contains]. *)
Fixpoint Contains (s substr : string) : bool :=
  if String.prefix substr s then true
  else match s with
       | EmptyString => false
       | String _ s' => Contains s' substr
       end.

(** ** Writing a reply *)

(** [sendReply w resp addr], [w] giving the outcome of [w.Write]. *)
Definition sendReply (w : list byte -> option error) (resp : byte)
    (addr : option AddrSpec) : list event * option error :=
  let formatted : error + (byte * list byte * Z) :=
    match addr with
    | None => inr (ipv4Address, [x00; x00; x00; x00], 0)
    | Some a =>
        if negb (FQDN a =? "")%string then
          inr (fqdnAddress,
               z2b (Z.of_nat (String.length (FQDN a)))
                 :: list_byte_of_string (FQDN a),
               uint16 (Port a))
        else
          match IP.To4 (IP a) with
          | Some ip4 => inr (ipv4Address, ip4, uint16 (Port a))
          | None =>
              match IP.To16 (IP a) with
              | Some ip16 => inr (ipv6Address, ip16, uint16 (Port a))
              | None =>
                  inl (Errorf "failed to format address: %v" [ArgAddr addr])
              end
          end
    end in
  match formatted with
  | inl e => ([], Some e)
  | inr (addrType, addrBody, addrPort) =>
      let msg :=
        [socks5Version; resp; x00; addrType] ++ addrBody
          ++ [z2b (Z.shiftr addrPort 8); z2b (Z.land addrPort 255)] in
      ([EvConnWrite msg], w msg)
  end.

(** [isLocalhostDest], for a request that is not nil. *)
Definition isLocalhostDest (req : Request) : bool :=
  (FQDN (DestAddr req) =? "localhost")%string
  || IP.IsLoopback (IP (DestAddr req)).

(** ** The session's error box *)

Module ErrorBox.

Inductive pump := Outbound | Inbound.

(** [var udpErr atomic.Value]: empty, or the error stored last. *)
Definition box := option error.

(** [atomic.Value.Store]: every store must carry the concrete type of
    the first one, or the call panics ([None]). *)
Definition Store (b : box) (e : error) : option box :=
  match b with
  | None => Some (Some e)
  | Some old =>
      if (dyn_type old =? dyn_type e)%string then Some (Some e) else None
  end.

Definition Load (b : box) : option error := b.

(** Where each pump stands with respect to the box.  The outbound pump
    ends with [udpErr.Store(err); return].  The inbound pump ends with
    [if udpErr.Load() == nil { udpErr.Store(err) }; return]: a load, and
    a store as a second step when the load saw the box empty. *)
Inductive out_pc := OutRunning | OutReturned.
Inductive in_pc := InRunning | InSawEmpty | InReturned.

(** [stores] is a history of the stores made so far, oldest first. *)
Record state := mkState {
  udpErr : box;
  out_at : out_pc;
  in_at : in_pc;
  stores : list (pump * error)
}.

Definition init : state := mkState None OutRunning InRunning [].

Inductive step_result :=
| Next (s : state)
| StorePanics
| AlreadyReturned.

(** One atomic operation of pump [p], whose terminal error is [e_out]
    for the outbound pump and [e_in] for the inbound pump. *)
Definition step (e_out e_in : error) (p : pump) (s : state) : step_result :=
  match p with
  | Outbound =>
      match out_at s with
      | OutReturned => AlreadyReturned
      | OutRunning =>
          match Store (udpErr s) e_out with
          | None => StorePanics
          | Some b =>
              Next (mkState b OutReturned (in_at s)
                      (stores s ++ [(Outbound, e_out)]))
          end
      end
  | Inbound =>
      match in_at s with
      | InReturned => AlreadyReturned
      | InRunning =>
          match Load (udpErr s) with
          | None => Next (mkState (udpErr s) (out_at s) InSawEmpty (stores s))
          | Some _ =>
              Next (mkState (udpErr s) (out_at s) InReturned (stores s))
          end
      | InSawEmpty =>
          match Store (udpErr s) e_in with
          | None => StorePanics
          | Some b =>
              Next (mkState b (out_at s) InReturned
                      (stores s ++ [(Inbound, e_in)]))
          end
      end
  end.

Inductive run_result :=
| Ran (s : state)
| RunPanics
| BadSchedule.

(** The operations in the order a schedule interleaves them. *)
Fixpoint run (e_out e_in : error) (sched : list pump) (s : state)
    : run_result :=
  match sched with
  | [] => Ran s
  | p :: rest =>
      match step e_out e_in p s with
      | Next s' => run e_out e_in rest s'
      | StorePanics => RunPanics
      | AlreadyReturned => BadSchedule
      end
  end.

(** [wg.Wait(); return udpErr.Load().(error)]. *)
Definition wait_and_return (r : run_result) : outcome :=
  match r with
  | Ran s =>
      match out_at s, in_at s with
      | OutReturned, InReturned =>
          match Load (udpErr s) with
          | Some e => Returned (Some e)
          | None => Panicked
          end
      | _, _ => Waiting
      end
  | RunPanics => Panicked
  | BadSchedule => Waiting
  end.

Definition first_stored (s : state) : option error :=
  match stores s with
  | [] => None
  | (_, e) :: _ => Some e
  end.

Definition last_stored (s : state) : option error :=
  match rev (stores s) with
  | [] => None
  | (_, e) :: _ => Some e
  end.

(** What the box holds when the outbound pump makes its store: what the
    operations of the inbound pump that the schedule puts before the
    first operation of the outbound pump have left there.  (An operation
    of the inbound pump does not look at the error of the outbound
    pump.) *)
Fixpoint at_outbound_store (e_in : error) (sched : list pump) (s : state)
    : box :=
  match sched with
  | Inbound :: rest =>
      match step e_in e_in Inbound s with
      | Next s' => at_outbound_store e_in rest s'
      | _ => udpErr s
      end
  | _ => udpErr s
  end.

End ErrorBox.

(** ** The two pumps of a UDP-associate session *)

Module UDPRelay.

(** Modelled from the spec: the error variables of package [stderror]
    are declared outside the sources at hand.  The specification names
    three distinct kinds of malformed datagram (short data, nonzero
    reserved bytes or bad address type, fragmentation); they are taken
    as three distinct plain error values. *)
Definition ErrNoEnoughData : error :=
  Ext (mkExt "*errors.errorString" "stderror.ErrNoEnoughData").
Definition ErrInvalidArgument : error :=
  Ext (mkExt "*errors.errorString" "stderror.ErrInvalidArgument").
Definition ErrUnsupported : error :=
  Ext (mkExt "*errors.errorString" "stderror.ErrUnsupported").

(** [1<<16], the size of each pump's buffer. *)
Definition bufSize : Z := Z.shiftl 1 16.

(** The buffer after [Read(buf)] has delivered [d] ([len(d) <= len(buf)]
    by the contract of [Read]): the first [len(d)] bytes are overwritten,
    the others keep what earlier reads left there (a reader that does not
    use the rest of the buffer as scratch space). *)
Definition read_into (buf d : list byte) : list byte :=
  firstn (length buf) (d ++ skipn (length d) buf).

(** How one turn of a pump's loop ends: the loop goes on; the pump stores
    an error in the session's error box and returns; a panic.  For the
    outbound pump [Stop e] says that [e] has been stored; for the inbound
    pump, which looks into the box before it stores, that it ends with
    [e] and comes to the box, where the schedule decides. *)
Inductive control :=
| Continue
| Stop (e : error)
| Panic.

(** What the outbound pump meets in one turn: the datagram [conn.Read]
    delivers, and what [net.ResolveUDPAddr] and [udpConn.WriteToUDP]
    answer if they are called. *)
Record out_step := mkOutStep {
  datagram : list byte;
  resolved : ext_error + NetAddr;
  written : ext_error + Z
}.

(** [udpErr.Store(e)], then the calls [after] and [return], in the
    outbound pump; [held] is what the box holds when the store is made.
    If the store panics, nothing of [after] is reached. *)
Definition store_then (held : ErrorBox.box) (e : error) (after : list event)
    : list event * control :=
  match ErrorBox.Store held e with
  | Some _ => (after, Stop e)
  | None => ([], Panic)
  end.

(** A datagram that fails a check: the error is stored, then one error is
    counted. *)
Definition reject (held : ErrorBox.box) (e : error) : list event * control :=
  store_then held e [EvAdd Socks5UDPAssociateErrors 1].

(** [udpConn.WriteToUDP(payload, dst)] and the counting after it; the
    slice expression that yields [payload] may have panicked. *)
Definition writeToUDP (st : out_step) (payload : option (list byte))
    (dst : NetAddr) : list event * control :=
  match payload with
  | None => ([], Panic)
  | Some p =>
      match written st with
      | inl _ =>
          ([EvWriteToUDP p dst; EvAdd Socks5UDPAssociateErrors 1], Continue)
      | inr ws =>
          ([EvWriteToUDP p dst; EvAdd UDPAssociateOutPkts 1;
            EvAdd UDPAssociateOutBytes ws], Continue)
      end
  end.

(** One turn of the outbound loop after a successful [conn.Read]:
    the buffer it leaves, the calls it makes, how it ends. *)
Definition outbound_iter (held : ErrorBox.box) (buf0 : list byte)
    (st : out_step) : list byte * (list event * control) :=
  let n := len (datagram st) in
  let buf := read_into buf0 (datagram st) in
  (buf,
   if n <=? 6 then reject held ErrNoEnoughData
   else if negb (byte_eqb (idx buf 0) x00) || negb (byte_eqb (idx buf 1) x00)
   then reject held ErrInvalidArgument
   else if negb (byte_eqb (idx buf 2) x00) then reject held ErrUnsupported
   else
     let addrType := idx buf 3 in
     if negb (byte_eqb addrType x01) && negb (byte_eqb addrType x03)
        && negb (byte_eqb addrType x04)
     then reject held ErrInvalidArgument
     else if (byte_eqb addrType x01 && (n <=? 10))
             || (byte_eqb addrType x03 && (n <=? b2z (idx buf 4) + 6))
             || (byte_eqb addrType x04 && (n <=? 22))
     then reject held ErrNoEnoughData
     else if byte_eqb addrType x01 then
       match slice buf 4 8 with
       | None => ([], Panic)
       | Some ip =>
           let dstAddr :=
             mkNetAddr ip (Z.shiftl (b2z (idx buf 8)) 8 + b2z (idx buf 9)) in
           writeToUDP st (slice buf 10 (n + 1)) dstAddr
       end
     else if byte_eqb addrType x03 then
       let fqdnLen := idx buf 4 in
       match slice buf 5 (b2z (add8 x05 fqdnLen)) with
       | None => ([], Panic)
       | Some name =>
           let fqdn := string_of_list_byte name in
           let port :=
             Z.shiftl (b2z (idx buf (b2z (add8 x05 fqdnLen)))) 8
             + b2z (idx buf (b2z (add8 x06 fqdnLen))) in
           match resolved st with
           | inl _ =>
               ([EvResolveUDPAddr fqdn port;
                 EvAdd Socks5UDPAssociateErrors 1], Continue)
           | inr dstAddr =>
               let '(ev, c) :=
                 writeToUDP st
                   (slice buf (b2z (add8 x07 fqdnLen)) (n + 1)) dstAddr in
               (EvResolveUDPAddr fqdn port :: ev, c)
           end
       end
     else
       match slice buf 4 20 with
       | None => ([], Panic)
       | Some ip =>
           let dstAddr :=
             mkNetAddr ip
               (Z.shiftl (b2z (idx buf 20)) 8 + b2z (idx buf 21)) in
           writeToUDP st (slice buf 22 (n + 1)) dstAddr
       end).

(** The outbound loop over the datagrams the tunnel delivers, until a
    turn ends it or, the datagrams used up, [conn.Read] fails with
    [readErr], which is stored. *)
Fixpoint outbound_loop (held : ErrorBox.box) (buf : list byte)
    (steps : list out_step) (readErr : error) : list event * control :=
  match steps with
  | [] => store_then held readErr []
  | st :: rest =>
      let '(buf', (ev, c)) := outbound_iter held buf st in
      match c with
      | Continue =>
          let '(ev', c') := outbound_loop held buf' rest readErr in
          (ev ++ ev', c')
      | _ => (ev, c)
      end
  end.

(** The outbound pump: a fresh buffer, the loop, and the deferred
    [udpConn.Close()], which runs when the pump returns and also when it
    panics. *)
Definition outbound_pump (held : ErrorBox.box) (steps : list out_step)
    (readErr : error) : list event * control :=
  let '(ev, c) := outbound_loop held (make bufSize) steps readErr in
  (ev ++ [EvCloseUDP], c).

(** What the inbound pump meets in one turn: the packet [udpConn.Read]
    delivers and the outcome of [conn.Write]. *)
Record in_step := mkInStep {
  packet : list byte;
  tunnel_written : option error
}.

Fixpoint inbound_loop (buf : list byte) (steps : list in_step)
    (readErr : error) : list event * control :=
  match steps with
  | [] => ([], Stop readErr)
  | st :: rest =>
      let n := len (packet st) in
      let buf' := read_into buf (packet st) in
      let counted :=
        [EvAdd UDPAssociateInPkts 1; EvAdd UDPAssociateInBytes n] in
      match slice buf' 0 n with
      | None => (counted, Panic)
      | Some p =>
          match tunnel_written st with
          | Some e => (counted ++ [EvTunnelWrite p], Stop e)
          | None =>
              let '(ev', c') := inbound_loop buf' rest readErr in
              (counted ++ EvTunnelWrite p :: ev', c')
          end
      end
  end.

Definition inbound_pump (steps : list in_step) (readErr : error)
    : list event * control :=
  inbound_loop (make bufSize) steps readErr.

End UDPRelay.

(** ** The handlers *)

(** What setting up the UDP listener of an associate session gives: one of
    the four calls fails, or the listener's port. *)
Inductive udp_setup :=
| ResolveUDPAddrFails (e : ext_error)
| ListenUDPFails (e : ext_error)
| SplitHostPortFails (e : ext_error)
| AtoiFails (e : ext_error)
| Listening (udpPort : Z).

(** What a handler meets outside. *)
Record Env := mkEnv {
  AllowLocalDestination : bool;
  Resolve : string -> error + IP.t;
  DialContext : host * Z -> ext_error + NetAddr;
  conn_Write : list byte -> option error;
  BidiCopy : option error;
  listen : udp_setup;
  tunnel_steps : list UDPRelay.out_step;
  tunnel_readErr : error;
  udp_steps : list UDPRelay.in_step;
  udp_readErr : error;
  schedule : list ErrorBox.pump
}.

Definition send_failed (e : error) : error :=
  Wrapf "failed to send reply: %w" [] e.

(** [handleConnect].  The deferred [target.Close()] runs when the handler
    returns after a successful dial. *)
Definition handleConnect (env : Env) (req : Request) : list event * outcome :=
  let target := Address (DestAddr req) in
  match DialContext env target with
  | inl err =>
      let msg := ext_text err in
      let '(resp, c) :=
        if Contains msg "refused"
        then (connectionRefused, Socks5ConnectionRefusedErrors)
        else if Contains msg "network is unreachable"
        then (networkUnreachable, Socks5NetworkUnreachableErrors)
        else (hostUnreachable, Socks5HostUnreachableErrors) in
      let '(ev, r) := sendReply (conn_Write env) resp None in
      (EvDial target :: EvAdd c 1 :: ev,
       match r with
       | Some e => Returned (Some (send_failed e))
       | None =>
           Returned (Some (Wrapf "connect to %v failed: %w"
                             [ArgAddr (Some (DestAddr req))] (Ext err)))
       end)
  | inr local =>
      let bind := mkAddrSpec "" (net_IP local) (net_Port local) in
      let '(ev, r) := sendReply (conn_Write env) successReply (Some bind) in
      match r with
      | Some e =>
          (EvDial target
             :: ev ++ [EvAdd Socks5HandshakeErrors 1; EvCloseTarget],
           Returned (Some (send_failed e)))
      | None =>
          (EvDial target :: ev ++ [EvBidiCopy; EvCloseTarget],
           Returned (BidiCopy env))
      end
  end.

(** [handleBind]. *)
Definition handleBind (env : Env) (req : Request) : list event * outcome :=
  let '(ev, r) := sendReply (conn_Write env) commandNotSupported None in
  match r with
  | Some e =>
      (EvAdd Socks5UnsupportedCommandErrors 1
         :: ev ++ [EvAdd Socks5HandshakeErrors 1],
       Returned (Some (send_failed e)))
  | None => (EvAdd Socks5UnsupportedCommandErrors 1 :: ev, Returned None)
  end.

(** [handleAssociate].  The calls of the two pumps are listed pump by
    pump, the outbound pump's first; the order in which they interleave is
    not recorded, except for the operations on the error box, which
    [schedule] orders.  The inbound pump makes no call after it has come
    to the box; the outbound pump does, so it is run with what the
    schedule has the box hold at its store. *)
Definition handleAssociate (env : Env) (req : Request)
    : list event * outcome :=
  let failed := EvAdd Socks5UDPAssociateErrors 1 in
  match listen env with
  | ResolveUDPAddrFails e =>
      ([failed],
       Returned (Some (Wrapf "failed to resolve UDP address: %w" [] (Ext e))))
  | ListenUDPFails e =>
      ([EvListenUDP; failed],
       Returned (Some (Wrapf "failed to listen UDP: %w" [] (Ext e))))
  | SplitHostPortFails e =>
      ([EvListenUDP; failed],
       Returned (Some (Wrapf "net.SplitHostPort() failed: %w" [] (Ext e))))
  | AtoiFails e =>
      ([EvListenUDP; failed],
       Returned (Some (Wrapf "strconv.Atoi() failed: %w" [] (Ext e))))
  | Listening udpPort =>
      let bind := mkAddrSpec "" [x00; x00; x00; x00] udpPort in
      let '(ev, r) := sendReply (conn_Write env) successReply (Some bind) in
      match r with
      | Some e =>
          (EvListenUDP :: ev ++ [EvAdd Socks5HandshakeErrors 1],
           Returned (Some (send_failed e)))
      | None =>
          let '(ev_in, c_in) :=
            UDPRelay.inbound_pump (udp_steps env) (udp_readErr env) in
          let held :=
            match c_in with
            | UDPRelay.Stop e_in =>
                ErrorBox.at_outbound_store e_in (schedule env) ErrorBox.init
            | _ => None
            end in
          let '(ev_out, c_out) :=
            UDPRelay.outbound_pump held (tunnel_steps env)
              (tunnel_readErr env) in
          (EvListenUDP :: ev ++ ev_out ++ ev_in,
           match c_out, c_in with
           | UDPRelay.Stop e_out, UDPRelay.Stop e_in =>
               ErrorBox.wait_and_return
                 (ErrorBox.run e_out e_in (schedule env) ErrorBox.init)
           | _, _ => Panicked
           end)
      end
  end.

(** [handleRequest].  Resolving writes the address into [req.DestAddr],
    which the policy check and the handlers then see. *)
Definition handleRequest (env : Env) (req : Request) : list event * outcome :=
  let dest := DestAddr req in
  let resolution : (list event * outcome) + (list event * Request) :=
    if negb (FQDN dest =? "")%string then
      match Resolve env (FQDN dest) with
      | inl err =>
          let '(ev, r) := sendReply (conn_Write env) hostUnreachable None in
          inl (EvResolve (FQDN dest) :: EvAdd Socks5DNSResolveErrors 1 :: ev,
               match r with
               | Some e => Returned (Some (send_failed e))
               | None =>
                   Returned (Some (Wrapf "failed to resolve destination %q: %w"
                                     [ArgString (FQDN dest)] err))
               end)
      | inr addr =>
          inr ([EvResolve (FQDN dest)],
               mkRequest (Version req) (Command req)
                 (mkAddrSpec (FQDN dest) addr (Port dest)))
      end
    else inr ([], req) in
  match resolution with
  | inl stop => stop
  | inr (ev0, req) =>
      if negb (AllowLocalDestination env) && isLocalhostDest req then
        (ev0,
         Returned (Some (Errorf
           "access to localhost resource via proxy is not allowed" [])))
      else
        let '(ev, out) :=
          if byte_eqb (Command req) ConnectCommand then handleConnect env req
          else if byte_eqb (Command req) BindCommand then handleBind env req
          else if byte_eqb (Command req) AssociateCommand
          then handleAssociate env req
          else
            let '(ev, r) :=
              sendReply (conn_Write env) commandNotSupported None in
            (EvAdd Socks5UnsupportedCommandErrors 1 :: ev,
             match r with
             | Some e => Returned (Some (send_failed e))
             | None =>
                 Returned (Some (Errorf "unsupported command: %v"
                                   [ArgByte (Command req)]))
             end) in
        (ev0 ++ ev, out)
  end.

(** What a trace wrote to the client connection, and the calls of it that
    belong to relaying: dialing the destination, the TCP relay, closing
    the dialled connection, and everything done with the UDP listener and
    the tunnel. *)
Definition conn_writes (tr : list event) : list (list byte) :=
  flat_map (fun e => match e with EvConnWrite m => [m] | _ => [] end) tr.

Definition is_relay_io (e : event) : bool :=
  match e with
  | EvDial _ | EvBidiCopy | EvCloseTarget | EvListenUDP
  | EvResolveUDPAddr _ _
  | EvWriteToUDP _ _ | EvTunnelWrite _ | EvCloseUDP => true
  | _ => false
  end.

Definition relay_io (tr : list event) : list event := filter is_relay_io tr.

Definition udp_writes (tr : list event) : list (list byte * NetAddr) :=
  flat_map (fun e => match e with EvWriteToUDP p d => [(p, d)] | _ => [] end) tr.

(** ** The chain forwarder

    [proxySocks5AuthReq] and [proxySocks5ConnReq] sit between a SOCKS5
    client ([conn]) and an upstream SOCKS5 server ([proxyConn]): each
    connection is a stream to read from and a [Write] whose outcome the
    surroundings give. *)

Module Forwarder.

(** What is still to be read from the client and from the server. *)
Record wires := mkWires {
  from_client : stream;
  from_server : stream
}.

(** The calls the forwarder makes. *)
Inductive call :=
| ToServer (msg : list byte)
| ToClient (msg : list byte)
| ListenUDP
| CloseUDP.

(** What the forwarder meets outside. *)
Record net := mkNet {
  server_Write : list byte -> option error;
  client_Write : list byte -> option error;
  udp : udp_setup
}.

Inductive result (A : Type) :=
| Ok (a : A)
| Err (e : error)
| Panics.

Arguments Ok {A} a.
Arguments Err {A} e.
Arguments Panics {A}.

(** A computation reads from the two streams and makes calls. *)
Definition F (A : Type) : Type := wires -> list call * result A * wires.

Definition ret {A} (a : A) : F A := fun w => ([], Ok a, w).

Definition fail {A} (e : error) : F A := fun w => ([], Err e, w).

Definition bind {A B} (m : F A) (k : A -> F B) : F B :=
  fun w =>
    match m w with
    | (tr, Ok a, w') =>
        let '(tr', r, w'') := k a w' in (tr ++ tr', r, w'')
    | (tr, Err e, w') => (tr, Err e, w')
    | (tr, Panics, w') => (tr, Panics, w')
    end.

(** [fmt.Errorf(format, err)] around the error of a step. *)
Definition annotate {A} (format : string) (m : F A) : F A :=
  fun w =>
    match m w with
    | (tr, Err e, w') => (tr, Err (Wrapf format [] e), w')
    | other => other
    end.

(** [io.ReadFull(conn, buf)] and [io.ReadFull(proxyConn, buf)] with
    [len(buf) = n]. *)
Definition readClient (n : nat) : F (list byte) :=
  fun w =>
    match ReadFull n (from_client w) with
    | (inl e, s) => ([], Err e, mkWires s (from_server w))
    | (inr b, s) => ([], Ok b, mkWires s (from_server w))
    end.

Definition readServer (n : nat) : F (list byte) :=
  fun w =>
    match ReadFull n (from_server w) with
    | (inl e, s) => ([], Err e, mkWires (from_client w) s)
    | (inr b, s) => ([], Ok b, mkWires (from_client w) s)
    end.

(** [proxyConn.Write(msg)] and [conn.Write(msg)]. *)
Definition writeServer (nt : net) (msg : list byte) : F unit :=
  fun w =>
    ([ToServer msg],
     match server_Write nt msg with Some e => Err e | None => Ok tt end, w).

Definition writeClient (nt : net) (msg : list byte) : F unit :=
  fun w =>
    ([ToClient msg],
     match client_Write nt msg with Some e => Err e | None => Ok tt end, w).

Definition emit (c : call) : F unit := fun w => ([c], Ok tt, w).

(** [s[i] = v]; out of range it panics. *)
Definition store (s : list byte) (i : Z) (v : byte) : F (list byte) :=
  fun w =>
    if (0 <=? i) && (i <? len s)
    then ([], Ok (firstn (Z.to_nat i) s ++ v :: skipn (S (Z.to_nat i)) s), w)
    else ([], Panics, w).

Notation "x <~ m ;; k" := (bind m (fun x => k))
  (at level 61, m at next level, right associativity).

(** [proxySocks5AuthReq].  Of the one-byte slice that the version error
    prints, its byte is kept. *)
Definition proxySocks5AuthReq (nt : net) : F unit :=
  version <~ annotate "failed to get version byte: %w" (readClient 1) ;;
  if negb (byte_eqb (idx version 0) socks5Version) then
    fail (Errorf "unsupported SOCKS version: %v" [ArgByte (idx version 0)])
  else
    nMethods <~ annotate
      "failed to get the length of authentication methods: %w"
      (readClient 1) ;;
    methods <~ annotate "failed to get authentication methods: %w"
      (readClient (Z.to_nat (b2z (idx nMethods 0)))) ;;
    let authReq := (([] ++ version) ++ nMethods) ++ methods in
    _ <~ annotate "failed to write authentication request to the server: %w"
      (writeServer nt authReq) ;;
    authResp <~ annotate
      "failed to read authentication response from the socks5 server: %w"
      (readServer 2) ;;
    _ <~ annotate
      "failed to write authentication response to the socks5 client: %w"
      (writeClient nt authResp) ;;
    ret tt.

(** The address part that follows a four-byte header whose type byte is
    [t], read with [read]: the length byte of a name, if there is one, and
    the rest.  The length of the rest of a name, [len+2], is computed at
    type [byte]. *)
Definition readAddress (read : nat -> F (list byte)) (t : byte)
    (what : string) : F (list byte * list byte) :=
  if byte_eqb t ipv4Address then
    addr <~ annotate what (read 6%nat) ;;
    ret ([], addr)
  else if byte_eqb t fqdnAddress then
    fqdnLen <~ annotate "failed to get FQDN length: %w" (read 1%nat) ;;
    addr <~ annotate what
      (read (Z.to_nat (b2z (add8 (idx fqdnLen 0) x02)))) ;;
    ret (fqdnLen, addr)
  else if byte_eqb t ipv6Address then
    addr <~ annotate what (read 18%nat) ;;
    ret ([], addr)
  else fail (Errorf "unsupported address type: %d" [ArgByte t]).

(** The UDP listener of an associate request: its port. *)
Definition listenUDP (nt : net) : F Z :=
  match udp nt with
  | ResolveUDPAddrFails e =>
      fail (Wrapf "net.ResolveUDPAddr() failed: %w" [] (Ext e))
  | ListenUDPFails e =>
      _ <~ emit ListenUDP ;;
      fail (Wrapf "net.ListenUDP() failed: %w" [] (Ext e))
  | SplitHostPortFails e =>
      _ <~ emit ListenUDP ;;
      _ <~ emit CloseUDP ;;
      fail (Wrapf "net.SplitHostPort() failed: %w" [] (Ext e))
  | AtoiFails e =>
      _ <~ emit ListenUDP ;;
      _ <~ emit CloseUDP ;;
      fail (Wrapf "strconv.Atoi() failed: %w" [] (Ext e))
  | Listening udpPort =>
      _ <~ emit ListenUDP ;;
      ret udpPort
  end.

(** [proxySocks5ConnReq]; the listener it returns is given by its port. *)
Definition proxySocks5ConnReq (nt : net) : F (option Z) :=
  connReq <~ annotate "failed to get socks5 connection request: %w"
    (readClient 4) ;;
  let cmd := idx connReq 1 in
  let reqAddrType := idx connReq 3 in
  dst <~ readAddress readClient reqAddrType
    "failed to get destination address: %w" ;;
  let '(reqFQDNLen, dstAddr) := dst in
  let connReq :=
    (if negb (len reqFQDNLen =? 0) then connReq ++ reqFQDNLen else connReq)
      ++ dstAddr in
  _ <~ annotate "failed to write connection request to the server: %w"
    (writeServer nt connReq) ;;
  connResp <~ annotate "failed to read connection response from the server: %w"
    (readServer 4) ;;
  let respAddrType := idx connResp 3 in
  bnd <~ readAddress readServer respAddrType
    "failed to get bind address: %w" ;;
  let '(respFQDNLen, bindAddr) := bnd in
  let connResp :=
    (if negb (len respFQDNLen =? 0) then connResp ++ respFQDNLen
     else connResp) ++ bindAddr in
  if byte_eqb cmd AssociateCommand then
    udpPort <~ listenUDP nt ;;
    let lenResp := len connResp in
    connResp <~ store connResp (lenResp - 2) (z2b (Z.shiftr udpPort 8)) ;;
    connResp <~ store connResp (lenResp - 1) (z2b udpPort) ;;
    _ <~ annotate
      "failed to write connection response to the socks5 client: %w"
      (writeClient nt connResp) ;;
    ret (Some udpPort)
  else
    _ <~ annotate
      "failed to write connection response to the socks5 client: %w"
      (writeClient nt connResp) ;;
    ret None.

End Forwarder.

(** * The vocabulary of the properties *)

(** The port two bytes stand for, computed as [readAddrSpec] does. *)
Definition port_of (hi lo : byte) : Z :=
  Z.lor (Z.shiftl (b2z hi) 8) (b2z lo).

(** The message [sendReply] assembles from a type byte, an address body
    and a port. *)
Definition reply_of (resp t : byte) (body : list byte) (p : Z) : list byte :=
  ([socks5Version; resp; x00; t] ++ body)
    ++ [z2b (Z.shiftr (uint16 p) 8); z2b (Z.land (uint16 p) 255)].

(** The addresses the round-trip property speaks of: a port of sixteen
    bits with a 4-byte address, a 16-byte address, or a name of 1 to 255
    bytes. *)
Definition valid_AddrSpec (a : AddrSpec) : Prop :=
  0 <= Port a <= 65535 /\
  ((FQDN a = "" /\ len (IP a) = 4)
   \/ (FQDN a = "" /\ len (IP a) = 16)
   \/ (IP a = [] /\ 1 <= Z.of_nat (String.length (FQDN a)) <= 255)).

(** The address [::ffff:8.8.8.8], port 53, in its 16-byte form. *)
Definition v4_mapped : AddrSpec :=
  mkAddrSpec "" (IP.v4InV6Prefix ++ [x08; x08; x08; x08]) 53.

(** The addresses [sendReply] can format: a name, or an IP of four or
    sixteen bytes. *)
Definition encodable (a : AddrSpec) : Prop :=
  FQDN a <> "" \/ len (IP a) = 4 \/ len (IP a) = 16.

(** The reply that carries no bound address: version, code, reserved
    byte, type IPv4, [0.0.0.0], port 0. *)
Definition plain_reply (code : byte) : list byte :=
  [x05; code; x00; x01; x00; x00; x00; x00; x00; x00].

(** The request as the policy check and the handlers see it: with the
    resolved address written into it when it names a host, unless
    resolving fails. *)
Definition resolved_request (env : Env) (req : Request) : option Request :=
  if (FQDN (DestAddr req) =? "")%string then Some req
  else match Resolve env (FQDN (DestAddr req)) with
       | inl _ => None
       | inr addr =>
           Some (mkRequest (Version req) (Command req)
                   (mkAddrSpec (FQDN (DestAddr req)) addr (Port (DestAddr req))))
       end.

(** The call resolving makes, if the request names a host. *)
Definition resolve_events (req : Request) : list event :=
  if (FQDN (DestAddr req) =? "")%string then []
  else [EvResolve (FQDN (DestAddr req))].

(** A request reaches dispatch when resolving did not fail and the policy
    on local destinations lets it through. *)
Definition reaches_dispatch (env : Env) (req req' : Request) : Prop :=
  resolved_request env req = Some req'
  /\ (AllowLocalDestination env = true \/ isLocalhostDest req' = false).

(** Some surroundings to run the handlers in. *)
Module World.

Definition refused : ext_error :=
  mkExt "*net.OpError" "dial tcp 93.184.216.34:81: connect: connection refused".

Definition no_such_host : error :=
  Ext (mkExt "*net.DNSError" "lookup localhost: no such host").

(** Local destinations are not allowed, no name resolves, every dial is
    refused, every write to the connection succeeds. *)
Definition strict : Env :=
  mkEnv false (fun _ => inl no_such_host) (fun _ => inl refused)
    (fun _ => None) None (Listening 40000) [] io_EOF [] io_EOF [].

(** The same with local destinations allowed. *)
Definition lenient : Env :=
  mkEnv true (fun _ => inl no_such_host) (fun _ => inl refused)
    (fun _ => None) None (Listening 40000) [] io_EOF [] io_EOF [].

Definition example_org : AddrSpec :=
  mkAddrSpec "" [x5d; xb8; xd8; x22] 81.

Definition to_localhost : Request :=
  mkRequest x05 ConnectCommand (mkAddrSpec "localhost" [] 8080).

Definition to_loopback : Request :=
  mkRequest x05 ConnectCommand (mkAddrSpec "" [x7f; x00; x00; x01] 8080).

End World.

(** The pumps of a session in which the inbound pump fails first, on a
    write to the tunnel, and the outbound pump fails after it, on a read
    from the tunnel. *)
Module Session.

Definition closed_pipe : error :=
  Ext (mkExt "*errors.errorString" "io: read/write on closed pipe").

Definition inbound_fails_first : Env :=
  mkEnv true (fun _ => inl World.no_such_host) (fun _ => inl World.refused)
    (fun _ => None) None (Listening 40000)
    [] io_EOF
    [UDPRelay.mkInStep [x01; x02; x03] (Some closed_pipe)] io_EOF
    [ErrorBox.Inbound; ErrorBox.Inbound; ErrorBox.Outbound].

Definition associate : Request :=
  mkRequest x05 AssociateCommand (mkAddrSpec "" [x00; x00; x00; x00] 0).

End Session.






(** A datagram to [8.8.8.8:53] that asks for fragment 1 and carries two
    bytes of data. *)
Definition fragment_one : UDPRelay.out_step :=
  UDPRelay.mkOutStep
    [x00; x00; x01; x01; x08; x08; x08; x08; x00; x35; xde; xad]
    (inl World.refused) (inr 2).


(** A datagram to [8.8.8.8:53] whose DATA is the two bytes [de ad]. *)
Definition dns_data : list byte := [xde; xad].

Definition dns_query : UDPRelay.out_step :=
  UDPRelay.mkOutStep
    ([x00; x00; x00; x01; x08; x08; x08; x08; x00; x35] ++ dns_data)
    (inl World.refused) (inr 3).

(** * The vocabulary of the further properties *)

(** One encoded address, as [readAddrSpec] takes it from a stream, and
    the address it makes of it. *)
Inductive parsed (a : AddrSpec) : list byte -> Prop :=
| parsed_ipv4 (ip : list byte) (hi lo : byte) :
    length ip = 4%nat -> a = mkAddrSpec "" ip (port_of hi lo) ->
    parsed a (x01 :: ip ++ [hi; lo])
| parsed_ipv6 (ip : list byte) (hi lo : byte) :
    length ip = 16%nat -> a = mkAddrSpec "" ip (port_of hi lo) ->
    parsed a (x04 :: ip ++ [hi; lo])
| parsed_fqdn (l : byte) (name : list byte) (hi lo : byte) :
    len name = b2z l ->
    a = mkAddrSpec (string_of_list_byte name) [] (port_of hi lo) ->
    parsed a (x03 :: l :: name ++ [hi; lo]).



(** Surroundings in which every name resolves to [93.184.216.34], every
    dial succeeds from the local address [10.0.0.2:50000], and every write
    to the connection succeeds. *)
Module Reachable.

Definition env : Env :=
  mkEnv false (fun _ => inr [x5d; xb8; xd8; x22])
    (fun _ => inr (mkNetAddr [x0a; x00; x00; x02] 50000))
    (fun _ => None) None (Listening 40000) [] io_EOF [] io_EOF
    [ErrorBox.Outbound; ErrorBox.Inbound].

Definition by_name : Request :=
  mkRequest x05 ConnectCommand (mkAddrSpec "example.org" [] 80).

(** The same, where no UDP listener can be opened. *)
Definition no_listener : Env :=
  mkEnv false (fun _ => inr [x5d; xb8; xd8; x22])
    (fun _ => inr (mkNetAddr [x0a; x00; x00; x02] 50000))
    (fun _ => None) None
    (ListenUDPFails (mkExt "*net.OpError" "listen udp: address in use"))
    [] io_EOF [] io_EOF [].

End Reachable.

(** A well-formed datagram for an IPv4 destination, with at least one byte
    of data and shorter than the pump's buffer, and the destination it
    names. *)
Inductive to_ipv4 : UDPRelay.out_step -> NetAddr -> Prop :=
| to_ipv4_intro (st : UDPRelay.out_step) (a b c d p1 p2 : byte)
    (data : list byte) :
    UDPRelay.datagram st = [x00; x00; x00; x01; a; b; c; d; p1; p2] ++ data ->
    0 < len data ->
    len (UDPRelay.datagram st) < UDPRelay.bufSize ->
    to_ipv4 st (mkNetAddr [a; b; c; d] (b2z p1 * 256 + b2z p2)).

(** Two datagrams for [8.8.8.8:53] and [1.1.1.1:53]; the write of the
    first one fails. *)
Definition two_queries : list UDPRelay.out_step :=
  [UDPRelay.mkOutStep
     [x00; x00; x00; x01; x08; x08; x08; x08; x00; x35; xde; xad]
     (inl World.refused)
     (inl (mkExt "*net.OpError" "write udp: network is unreachable"));
   UDPRelay.mkOutStep
     [x00; x00; x00; x01; x01; x01; x01; x01; x00; x35; xbe]
     (inl World.refused) (inr 2)].

(** What the inbound pump does with one packet from the network: two
    counters, and the packet written to the tunnel as it is. *)
Definition relayed (st : UDPRelay.in_step) : list event :=
  [EvAdd UDPAssociateInPkts 1;
   EvAdd UDPAssociateInBytes (len (UDPRelay.packet st));
   EvTunnelWrite (UDPRelay.packet st)].

(** The address part of a message as the forwarder frames it, after a
    header whose type byte is [t]: no length byte and 6 bytes for type 1,
    no length byte and 18 bytes for type 4, and for type 3 a length byte
    [l] and [l+2] bytes, the sum taken at type [byte]. *)
Inductive address_part (t : byte) : list byte -> list byte -> Prop :=
| part_ipv4 (addr : list byte) :
    t = x01 -> length addr = 6%nat -> address_part t [] addr
| part_ipv6 (addr : list byte) :
    t = x04 -> length addr = 18%nat -> address_part t [] addr
| part_fqdn (l : byte) (addr : list byte) :
    t = x03 -> len addr = b2z (add8 l x02) -> address_part t [l] addr.

(** A connection request or reply of SOCKS5: four header bytes, the third
    of them the type, and the address and port of that type, the name of
    type 3 having at most 253 bytes. *)
Inductive framed : list byte -> Prop :=
| framed_ipv4 (v c r : byte) (addr : list byte) :
    length addr = 6%nat -> framed (v :: c :: r :: x01 :: addr)
| framed_ipv6 (v c r : byte) (addr : list byte) :
    length addr = 18%nat -> framed (v :: c :: r :: x04 :: addr)
| framed_fqdn (v c r l : byte) (addr : list byte) :
    b2z l <= 253 -> len addr = b2z l + 2 ->
    framed (v :: c :: r :: x03 :: l :: addr).

(** A forwarder whose writes succeed and whose UDP listener gets port
    40001. *)
Definition open_net : Forwarder.net :=
  Forwarder.mkNet (fun _ => None) (fun _ => None) (Listening 40001).

(** * Properties *)

(** ** Facts about bytes, strings and reading *)

Section BytesFacts.

Lemma b2z_range (b : byte) : 0 <= b2z b < 256.
Proof. unfold b2z. pose proof (Byte.to_N_bounded b). lia. Qed.

Lemma z2b_b2z (b : byte) : z2b (b2z b) = b.
Proof.
  unfold z2b. rewrite Z.mod_small by apply b2z_range.
  unfold b2z. now rewrite N2Z.id, Byte.of_to_N.
Qed.

Lemma b2z_z2b (z : Z) : b2z (z2b z) = z mod 256.
Proof.
  unfold z2b, b2z.
  assert (0 <= z mod 256 < 256) by (apply Z.mod_pos_bound; lia).
  destruct (Byte.of_N (Z.to_N (z mod 256))) eqn:E.
  - apply Byte.to_of_N in E. rewrite E. lia.
  - apply Byte.of_N_None_iff in E. lia.
Qed.

Lemma byte_eqb_eq (a b : byte) : byte_eqb a b = true <-> a = b.
Proof.
  split; [apply Byte.byte_dec_bl | apply Byte.byte_dec_lb].
Qed.

Lemma byte_eqb_neq (a b : byte) : byte_eqb a b = false <-> a <> b.
Proof.
  split.
  - apply Byte.eqb_false.
  - intros N. destruct (byte_eqb a b) eqn:E; [|reflexivity].
    apply byte_eqb_eq in E. contradiction.
Qed.

Lemma byte_eqb_refl (a : byte) : byte_eqb a a = true.
Proof. now apply byte_eqb_eq. Qed.

(** A byte put below a value shifted by eight bits does not overlap it. *)
Lemma lor_shiftl_8 (hi lo : Z) :
  0 <= lo < 256 -> Z.lor (Z.shiftl hi 8) lo = hi * 256 + lo.
Proof.
  intros Hlo.
  assert (D : Z.land (Z.shiftl hi 8) lo = 0).
  { apply Z.bits_inj'. intros n Hn.
    rewrite Z.land_spec, Z.bits_0.
    destruct (Z.ltb_spec n 8).
    - rewrite Z.shiftl_spec_low by assumption. reflexivity.
    - replace (Z.testbit lo n) with false; [apply andb_false_r|].
      symmetry. destruct (Z.eq_dec lo 0) as [->|].
      + apply Z.bits_0.
      + apply Z.bits_above_log2; [lia|].
        apply Z.log2_lt_pow2; [lia|].
        apply Z.lt_le_trans with (2 ^ 8); [simpl; lia|].
        apply Z.pow_le_mono_r; lia. }
  rewrite <- Z.lxor_lor, <- Z.add_nocarry_lxor by assumption.
  now rewrite Z.shiftl_mul_pow2 by lia.
Qed.

(** The two port bytes [sendReply] writes carry [p mod 2^16], high byte
    first. *)
Lemma port_bytes_value (p : Z) :
  b2z (z2b (Z.shiftr (uint16 p) 8)) * 256 + b2z (z2b (Z.land (uint16 p) 255))
  = p mod 65536.
Proof.
  unfold uint16. rewrite !b2z_z2b.
  change 255 with (Z.ones 8). rewrite Z.land_ones by lia.
  rewrite Z.shiftr_div_pow2 by lia. change (2 ^ 8) with 256.
  assert (0 <= p mod 65536 < 65536) by (apply Z.mod_pos_bound; lia).
  set (q := p mod 65536) in *.
  rewrite (Z.mod_small (q / 256)) by (split; [apply Z.div_pos|apply Z.div_lt_upper_bound]; lia).
  rewrite Z.mod_mod by lia.
  pose proof (Z.div_mod q 256). lia.
Qed.

Lemma list_byte_of_string_length (s : string) :
  length (list_byte_of_string s) = String.length s.
Proof.
  induction s as [|c s IH]; simpl; [reflexivity|].
  f_equal. exact IH.
Qed.

Lemma ReadFull_app (n : nat) (d rest : list byte) :
  length d = n -> ReadFull n (d ++ rest) = (inr d, rest).
Proof.
  intros <-. unfold ReadFull.
  replace (length d <=? length (d ++ rest))%nat with true.
  - rewrite firstn_app, Nat.sub_diag, firstn_all, app_nil_r.
    rewrite skipn_app, Nat.sub_diag, skipn_all. reflexivity.
  - symmetry. apply Nat.leb_le. rewrite length_app. lia.
Qed.

End BytesFacts.

Arguments b2z : simpl never.
Arguments z2b : simpl never.
Arguments uint16 : simpl never.

(** ** Parsing a destination and a request *)

Section Parsing.

Lemma port_of_value (hi lo : byte) : port_of hi lo = b2z hi * 256 + b2z lo.
Proof. apply lor_shiftl_8, b2z_range. Qed.

Lemma readAddrSpec_ipv4 (a b c d hi lo : byte) (rest : stream) :
  readAddrSpec (x01 :: a :: b :: c :: d :: hi :: lo :: rest)
  = (inr (mkAddrSpec "" [a; b; c; d] (port_of hi lo)), rest).
Proof. reflexivity. Qed.

Lemma readAddrSpec_ipv6 (ip : list byte) (hi lo : byte) (rest : stream) :
  length ip = 16%nat ->
  readAddrSpec (x04 :: ip ++ hi :: lo :: rest)
  = (inr (mkAddrSpec "" ip (port_of hi lo)), rest).
Proof.
  intros L. unfold readAddrSpec, bind. simpl.
  rewrite (ReadFull_app 16 ip) by assumption. reflexivity.
Qed.

Lemma readAddrSpec_fqdn (l : byte) (name : list byte) (hi lo : byte)
    (rest : stream) :
  length name = Z.to_nat (b2z l) ->
  readAddrSpec (x03 :: l :: name ++ hi :: lo :: rest)
  = (inr (mkAddrSpec (string_of_list_byte name) [] (port_of hi lo)), rest).
Proof.
  intros L. unfold readAddrSpec, bind. simpl.
  change (idx [l] 0) with l.
  rewrite (ReadFull_app _ name) by assumption. reflexivity.
Qed.

End Parsing.

(** C5.  A destination whose type byte is none of 1, 3, 4 is refused with
    [unrecognizedAddrType], and of the stream only that one byte has been
    taken: what follows it is still there to be read. *)
Theorem readAddrSpec_unknown_type (t : byte) (rest : stream) :
  t <> ipv4Address -> t <> fqdnAddress -> t <> ipv6Address ->
  readAddrSpec (t :: rest) = (inl unrecognizedAddrType, rest).
Proof.
  intros H4 Hn H6.
  apply byte_eqb_neq in H4, Hn, H6.
  unfold readAddrSpec, bind. simpl.
  change (idx [t] 0) with t.
  rewrite H4, H6, Hn. reflexivity.
Qed.

Lemma readAddrSpec_unknown_type_witness :
  readAddrSpec [x02; x7f; x00; x00; x01; x00; x50]
  = (inl unrecognizedAddrType, [x7f; x00; x00; x01; x00; x50]).
Proof.
  apply (readAddrSpec_unknown_type x02); discriminate.
Defined.

(** C9.  [NewRequest] looks at the first header byte only: when it is the
    version constant and the destination after the header parses, the
    request is built from the command byte as it stands and from that
    destination, with [Version] 5, whatever the reserved byte is. *)
Theorem NewRequest_ignores_reserved (cmd rsv rsv' : byte) (s s' : stream)
    (d : AddrSpec) :
  readAddrSpec s = (inr d, s') ->
  NewRequest (socks5Version :: cmd :: rsv :: s) = (inr (mkRequest x05 cmd d), s')
  /\ NewRequest (socks5Version :: cmd :: rsv' :: s)
     = NewRequest (socks5Version :: cmd :: rsv :: s).
Proof.
  intros H. unfold NewRequest. simpl. rewrite H. split; reflexivity.
Qed.

Lemma NewRequest_ignores_reserved_witness :
  NewRequest [x05; x09; xff; x01; x5d; xb8; xd8; x22; x00; x50]
  = (inr (mkRequest x05 x09 (mkAddrSpec "" [x5d; xb8; xd8; x22] 80)), [])
  /\ NewRequest [x05; x09; x00; x01; x5d; xb8; xd8; x22; x00; x50]
     = NewRequest [x05; x09; xff; x01; x5d; xb8; xd8; x22; x00; x50].
Proof.
  apply (NewRequest_ignores_reserved x09 xff x00
           [x01; x5d; xb8; xd8; x22; x00; x50] []
           (mkAddrSpec "" [x5d; xb8; xd8; x22] 80)).
  reflexivity.
Defined.

(** ** The reply writer *)

Section ReplyCodec.

Variable w : list byte -> option error.

Lemma string_eqb_empty (s : string) :
  (s =? "")%string = false <-> s <> "".
Proof.
  destruct s; simpl; split; intros H; try discriminate; try reflexivity.
  now elim H.
Qed.

Lemma sendReply_fqdn (resp : byte) (a : AddrSpec) :
  FQDN a <> "" ->
  let m := reply_of resp fqdnAddress
             (z2b (Z.of_nat (String.length (FQDN a)))
                :: list_byte_of_string (FQDN a)) (Port a) in
  sendReply w resp (Some a) = ([EvConnWrite m], w m).
Proof.
  intros H. apply string_eqb_empty in H.
  unfold sendReply, reply_of. rewrite H. reflexivity.
Qed.

Lemma sendReply_ip4 (resp : byte) (a : AddrSpec) (ip4 : IP.t) :
  FQDN a = "" -> IP.To4 (IP a) = Some ip4 ->
  let m := reply_of resp ipv4Address ip4 (Port a) in
  sendReply w resp (Some a) = ([EvConnWrite m], w m).
Proof.
  intros F T. unfold sendReply, reply_of. rewrite F, T. reflexivity.
Qed.

Lemma sendReply_ip6 (resp : byte) (a : AddrSpec) (ip16 : IP.t) :
  FQDN a = "" -> IP.To4 (IP a) = None -> IP.To16 (IP a) = Some ip16 ->
  let m := reply_of resp ipv6Address ip16 (Port a) in
  sendReply w resp (Some a) = ([EvConnWrite m], w m).
Proof.
  intros F T4 T16. unfold sendReply, reply_of. rewrite F, T4, T16.
  reflexivity.
Qed.

Lemma To4_length (ip ip4 : IP.t) :
  IP.To4 ip = Some ip4 -> length ip4 = 4%nat.
Proof.
  unfold IP.To4, len. destruct (Z.eqb_spec (Z.of_nat (length ip)) 4) as [E|E].
  - intros [= <-]. lia.
  - destruct (Z.eqb_spec (Z.of_nat (length ip)) 16) as [E'|E']; cbn [andb];
      [|discriminate].
    destruct (_ && _); [|discriminate].
    intros H. assert (ip4 = firstn 4 (skipn 12 ip)) as -> by congruence.
    rewrite length_firstn, length_skipn. lia.
Qed.

Lemma To4_of_4 (ip : IP.t) : len ip = 4 -> IP.To4 ip = Some ip.
Proof. intros L. unfold IP.To4. rewrite L. reflexivity. Qed.

Lemma To16_of_16 (ip : IP.t) : len ip = 16 -> IP.To16 ip = Some ip.
Proof. intros L. unfold IP.To16. rewrite L. reflexivity. Qed.

(** Reading the port bytes of a reply gives the port back when it fits
    sixteen bits. *)
Lemma port_of_reply (p : Z) :
  0 <= p <= 65535 ->
  port_of (z2b (Z.shiftr (uint16 p) 8)) (z2b (Z.land (uint16 p) 255)) = p.
Proof.
  intros R. rewrite port_of_value, port_bytes_value.
  apply Z.mod_small. lia.
Qed.

Lemma read_reply_ip4 (resp : byte) (ip4 : IP.t) (p : Z) :
  length ip4 = 4%nat -> 0 <= p <= 65535 ->
  readAddrSpec (skipn 3 (reply_of resp ipv4Address ip4 p))
  = (inr (mkAddrSpec "" ip4 p), []).
Proof.
  intros L R.
  destruct ip4 as [|a [|b [|c [|d [|]]]]]; try discriminate L.
  unfold reply_of. simpl skipn. unfold ipv4Address.
  simpl app. rewrite readAddrSpec_ipv4, port_of_reply by assumption.
  reflexivity.
Qed.

Lemma read_reply_ip6 (resp : byte) (ip16 : IP.t) (p : Z) :
  length ip16 = 16%nat -> 0 <= p <= 65535 ->
  readAddrSpec (skipn 3 (reply_of resp ipv6Address ip16 p))
  = (inr (mkAddrSpec "" ip16 p), []).
Proof.
  intros L R. unfold reply_of, ipv6Address.
  change (skipn 3 (([socks5Version; resp; x00; x04] ++ ip16) ++ ?t))
    with (x04 :: ip16 ++ t).
  rewrite readAddrSpec_ipv6, port_of_reply by assumption.
  reflexivity.
Qed.

Lemma read_reply_fqdn (resp : byte) (name : string) (p : Z) :
  Z.of_nat (String.length name) <= 255 -> 0 <= p <= 65535 ->
  readAddrSpec
    (skipn 3 (reply_of resp fqdnAddress
                (z2b (Z.of_nat (String.length name))
                   :: list_byte_of_string name) p))
  = (inr (mkAddrSpec name [] p), []).
Proof.
  intros L R. unfold reply_of, fqdnAddress.
  change (skipn 3 (([socks5Version; resp; x00; x03] ++ ?l :: ?n) ++ ?t))
    with (x03 :: l :: n ++ t).
  rewrite readAddrSpec_fqdn.
  - rewrite port_of_reply, string_of_list_byte_of_string by assumption.
    reflexivity.
  - rewrite b2z_z2b, Z.mod_small by lia.
    rewrite list_byte_of_string_length. lia.
Qed.

End ReplyCodec.

Lemma To4_of_16 (ip ip4 : IP.t) :
  len ip = 16 -> IP.To4 ip = Some ip4 -> ip4 = skipn 12 ip.
Proof.
  intros L. unfold IP.To4. rewrite L.
  change (16 =? 4) with false. change (16 =? 16) with true.
  cbv match. cbn [andb].
  destruct (_ && _); [|discriminate].
  intros H. assert (ip4 = firstn 4 (skipn 12 ip)) as -> by congruence.
  apply firstn_all2. rewrite length_skipn. unfold len in L. lia.
Qed.

(** C3, as stated, fails on a 16-byte address of the form
    [::ffff:a.b.c.d]: [sendReply] tests [To4] first and writes it as a
    4-byte IPv4 address, so what is read back has four address bytes, not
    the sixteen that were given. *)
Lemma roundtrip_fails_on_v4_mapped :
  valid_AddrSpec v4_mapped
  /\ sendReply (fun _ => None) successReply (Some v4_mapped)
     = ([EvConnWrite [x05; x00; x00; x01; x08; x08; x08; x08; x00; x35]], None)
  /\ readAddrSpec [x01; x08; x08; x08; x08; x00; x35]
     = (inr (mkAddrSpec "" [x08; x08; x08; x08] 53), [])
  /\ IP (mkAddrSpec "" [x08; x08; x08; x08] 53) <> IP v4_mapped
  /\ len (IP v4_mapped) = 16.
Proof.
  repeat split; try reflexivity.
  - vm_compute. discriminate.
  - vm_compute. discriminate.
  - right; left. split; reflexivity.
  - discriminate.
Qed.

(** C3, amended.  For a valid address, what [readAddrSpec] reads from the
    address part of the reply [sendReply] writes (the message without its
    first three bytes) is the address itself when it is a name, a 4-byte
    address, or a 16-byte address that [To4] does not recognise as
    [::ffff:a.b.c.d]; nothing is left unread.  A 16-byte address of that
    form comes back as its last four bytes, with the same port. *)
Theorem reply_roundtrip (w : list byte -> option error) (resp : byte)
    (a : AddrSpec) :
  valid_AddrSpec a ->
  exists msg,
    sendReply w resp (Some a) = ([EvConnWrite msg], w msg)
    /\ (FQDN a <> "" \/ len (IP a) = 4 \/ IP.To4 (IP a) = None ->
        readAddrSpec (skipn 3 msg) = (inr a, []))
    /\ (forall ip4, len (IP a) = 16 -> IP.To4 (IP a) = Some ip4 ->
        ip4 = skipn 12 (IP a)
        /\ readAddrSpec (skipn 3 msg) = (inr (mkAddrSpec "" ip4 (Port a)), [])).
Proof.
  intros [R [[F L] | [[F L] | [I L]]]].
  - (* four bytes *)
    pose proof (To4_of_4 _ L) as T.
    eexists. split; [apply (sendReply_ip4 w resp a _ F T)|].
    split.
    + intros _. rewrite read_reply_ip4 by (unfold len in L; lia || assumption).
      destruct a; simpl in *; subst; reflexivity.
    + intros ip4 L'. lia.
  - (* sixteen bytes *)
    destruct (IP.To4 (IP a)) as [ip4|] eqn:T.
    + eexists. split; [apply (sendReply_ip4 w resp a _ F T)|].
      split.
      * intros [N | [L4 | N]]; [contradiction | lia | discriminate].
      * intros ip4' _ [= <-].
        pose proof (To4_length _ _ T) as L4.
        split; [|apply read_reply_ip4; assumption].
        apply To4_of_16; assumption.
    + pose proof (To16_of_16 _ L) as T16.
      eexists. split; [apply (sendReply_ip6 w resp a _ F T T16)|].
      split.
      * intros _. rewrite read_reply_ip6 by (unfold len in L; lia || assumption).
        destruct a; simpl in *; subst; reflexivity.
      * intros ip4 _ [=].
  - (* a name *)
    assert (N : FQDN a <> "").
    { intros E. rewrite E in L. simpl in L. lia. }
    eexists. split; [apply (sendReply_fqdn w resp a N)|].
    split.
    + intros _. rewrite read_reply_fqdn by lia.
      destruct a; simpl in *; subst; reflexivity.
    + intros ip4 L'. rewrite I in L'. discriminate L'.
Qed.

Lemma reply_roundtrip_witness :
  exists msg,
    sendReply (fun _ => None) successReply
      (Some (mkAddrSpec "example.org" [] 443))
    = ([EvConnWrite msg], None)
    /\ (FQDN (mkAddrSpec "example.org" [] 443) <> ""
        \/ len (IP (mkAddrSpec "example.org" [] 443)) = 4
        \/ IP.To4 (IP (mkAddrSpec "example.org" [] 443)) = None ->
        readAddrSpec (skipn 3 msg)
        = (inr (mkAddrSpec "example.org" [] 443), []))
    /\ (forall ip4,
        len (IP (mkAddrSpec "example.org" [] 443)) = 16 ->
        IP.To4 (IP (mkAddrSpec "example.org" [] 443)) = Some ip4 ->
        ip4 = skipn 12 (IP (mkAddrSpec "example.org" [] 443))
        /\ readAddrSpec (skipn 3 msg)
           = (inr (mkAddrSpec "" ip4
                     (Port (mkAddrSpec "example.org" [] 443))), [])).
Proof.
  apply (reply_roundtrip (fun _ => None) successReply
           (mkAddrSpec "example.org" [] 443)).
  split; [simpl; lia|].
  right; right. split; [reflexivity | simpl; lia].
Defined.

(** C10, as stated, fails, in two ways.  An address that is given but has
    neither a name nor an IP of 4 or 16 bytes is refused before the port
    is looked at: with [Port = 65536 + 80] nothing is written.  And two
    bytes cannot carry a [k] of 2^16 or more: with [Port = 65536 + 65616]
    they carry 80. *)
Lemma port_bytes_do_not_always_carry_k :
  sendReply (fun _ => None) successReply
    (Some (mkAddrSpec "" [] (65536 + 80)))
  = ([], Some (Errorf "failed to format address: %v"
                 [ArgAddr (Some (mkAddrSpec "" [] (65536 + 80)))]))
  /\ sendReply (fun _ => None) successReply
       (Some (mkAddrSpec "" [x0a; x00; x00; x01] (65536 + 65616)))
     = ([EvConnWrite
           ([x05; x00; x00; x01; x0a; x00; x00; x01] ++ [x00; x50])], None)
  /\ b2z x00 * 256 + b2z x50 <> 65616.
Proof.
  split; [reflexivity|]. split; [reflexivity|].
  vm_compute. discriminate.
Qed.

(** C10, amended.  The port is reduced modulo 2^16 when it is written: for
    an address [sendReply] can format, with [Port = 65536 + k] and
    [k >= 0], the reply is written, and its last two bytes, high byte
    first, carry [k mod 2^16], that is [k] itself when [k] fits sixteen
    bits. *)
Theorem sendReply_port_mod_2_16 (w : list byte -> option error) (resp : byte)
    (a : AddrSpec) (k : Z) :
  0 <= k -> Port a = 65536 + k -> encodable a ->
  exists pre hi lo,
    sendReply w resp (Some a)
    = ([EvConnWrite (pre ++ [hi; lo])], w (pre ++ [hi; lo]))
    /\ b2z hi * 256 + b2z lo = k mod 65536
    /\ (k < 65536 -> b2z hi * 256 + b2z lo = k).
Proof.
  intros K P E.
  assert (V : forall t body,
             b2z (z2b (Z.shiftr (uint16 (Port a)) 8)) * 256
             + b2z (z2b (Z.land (uint16 (Port a)) 255)) = k mod 65536
             /\ (k < 65536 ->
                 b2z (z2b (Z.shiftr (uint16 (Port a)) 8)) * 256
                 + b2z (z2b (Z.land (uint16 (Port a)) 255)) = k)
             /\ reply_of resp t body (Port a)
                = ([socks5Version; resp; x00; t] ++ body)
                    ++ [z2b (Z.shiftr (uint16 (Port a)) 8);
                        z2b (Z.land (uint16 (Port a)) 255)]).
  { intros t body. rewrite port_bytes_value, P.
    replace (65536 + k) with (k + 1 * 65536) by lia.
    rewrite Z_mod_plus_full. repeat split.
    intros Hk. apply Z.mod_small. lia. }
  destruct (string_dec (FQDN a) "") as [F|F].
  - destruct (IP.To4 (IP a)) as [ip4|] eqn:T.
    + destruct (V ipv4Address ip4) as (V1 & V2 & V3).
      do 3 eexists. split; [|split; [exact V1 | exact V2]].
      rewrite <- V3. apply (sendReply_ip4 w resp a _ F T).
    + assert (L : len (IP a) = 16).
      { destruct E as [N | [L | L]]; [contradiction | | exact L].
        rewrite (To4_of_4 _ L) in T. discriminate. }
      destruct (V ipv6Address (IP a)) as (V1 & V2 & V3).
      do 3 eexists. split; [|split; [exact V1 | exact V2]].
      rewrite <- V3. apply (sendReply_ip6 w resp a _ F T (To16_of_16 _ L)).
  - destruct (V fqdnAddress
                (z2b (Z.of_nat (String.length (FQDN a)))
                   :: list_byte_of_string (FQDN a))) as (V1 & V2 & V3).
    do 3 eexists. split; [|split; [exact V1 | exact V2]].
    rewrite <- V3. apply (sendReply_fqdn w resp a F).
Qed.

Lemma sendReply_port_mod_2_16_witness :
  exists pre hi lo,
    sendReply (fun _ => None) successReply
      (Some (mkAddrSpec "" [x0a; x00; x00; x01] (65536 + 80)))
    = ([EvConnWrite (pre ++ [hi; lo])], None)
    /\ b2z hi * 256 + b2z lo = 80 mod 65536
    /\ (80 < 65536 -> b2z hi * 256 + b2z lo = 80).
Proof.
  apply (sendReply_port_mod_2_16 (fun _ => None) successReply
           (mkAddrSpec "" [x0a; x00; x00; x01] (65536 + 80)) 80).
  - lia.
  - reflexivity.
  - right; left. reflexivity.
Defined.

(** ** Dispatch and the TCP handlers *)

Lemma sendReply_nil (w : list byte -> option error) (code : byte) :
  sendReply w code None = ([EvConnWrite (plain_reply code)], w (plain_reply code)).
Proof. reflexivity. Qed.

(** C6.  When dialing fails, [handleConnect] dials, counts, writes one
    reply and returns an error; nothing is relayed.  The reply carries 5
    when the error text contains "refused", else 3 when it contains
    "network is unreachable", else 4. *)
Theorem handleConnect_dial_failure (env : Env) (req : Request)
    (err : ext_error) :
  DialContext env (Address (DestAddr req)) = inl err ->
  let code :=
    if Contains (ext_text err) "refused" then x05
    else if Contains (ext_text err) "network is unreachable" then x03
    else x04 in
  exists c e,
    handleConnect env req
    = ([EvDial (Address (DestAddr req)); EvAdd c 1;
        EvConnWrite (plain_reply code)], Returned (Some e)).
Proof.
  intros D code. unfold handleConnect. rewrite D. subst code.
  destruct (Contains (ext_text err) "refused");
    [|destruct (Contains (ext_text err) "network is unreachable")];
    rewrite sendReply_nil;
    (destruct (conn_Write env _); do 2 eexists; reflexivity).
Qed.

(** [handleRequest] once resolving has gone through. *)
Lemma handleRequest_resolved (env : Env) (req req' : Request) :
  resolved_request env req = Some req' ->
  handleRequest env req
  = if negb (AllowLocalDestination env) && isLocalhostDest req' then
      (resolve_events req,
       Returned (Some (Errorf
         "access to localhost resource via proxy is not allowed" [])))
    else
      let '(ev, out) :=
        if byte_eqb (Command req') ConnectCommand then handleConnect env req'
        else if byte_eqb (Command req') BindCommand then handleBind env req'
        else if byte_eqb (Command req') AssociateCommand
        then handleAssociate env req'
        else
          let '(ev, r) :=
            sendReply (conn_Write env) commandNotSupported None in
          (EvAdd Socks5UnsupportedCommandErrors 1 :: ev,
           match r with
           | Some e => Returned (Some (send_failed e))
           | None =>
               Returned (Some (Errorf "unsupported command: %v"
                                 [ArgByte (Command req')]))
           end) in
      (resolve_events req ++ ev, out).
Proof.
  unfold handleRequest, resolved_request, resolve_events.
  destruct (FQDN (DestAddr req) =? "")%string; simpl negb; cbv match.
  - intros [= <-]. reflexivity.
  - destruct (Resolve env _); [discriminate|]. intros [= <-]. reflexivity.
Qed.

Lemma resolved_request_Command (env : Env) (req req' : Request) :
  resolved_request env req = Some req' -> Command req' = Command req.
Proof.
  unfold resolved_request.
  destruct (FQDN (DestAddr req) =? "")%string.
  - now intros [= <-].
  - destruct (Resolve env _); [discriminate|]. now intros [= <-].
Qed.

(** C7.  A BIND request that reaches dispatch gets one reply, with code 7,
    and nothing else is done on its behalf: no dial, no relay, no UDP.
    When the reply is written the handler returns [nil]. *)
Theorem bind_is_refused (env : Env) (req req' : Request) :
  Command req = BindCommand ->
  reaches_dispatch env req req' ->
  let m := plain_reply x07 in
  exists tr out,
    handleRequest env req = (tr, out)
    /\ tr = resolve_events req
            ++ EvAdd Socks5UnsupportedCommandErrors 1 :: EvConnWrite m
            :: match conn_Write env m with
               | None => []
               | Some _ => [EvAdd Socks5HandshakeErrors 1]
               end
    /\ conn_writes tr = [m]
    /\ relay_io tr = []
    /\ (conn_Write env m = None -> out = Returned None).
Proof.
  intros C [R P] m.
  assert (G : negb (AllowLocalDestination env) && isLocalhostDest req' = false).
  { destruct P as [-> | ->]; [reflexivity | apply andb_false_r]. }
  rewrite (handleRequest_resolved _ _ _ R), G.
  rewrite (resolved_request_Command _ _ _ R), C.
  change (byte_eqb BindCommand ConnectCommand) with false.
  change (byte_eqb BindCommand BindCommand) with true.
  cbv match.
  unfold handleBind. rewrite sendReply_nil.
  change (plain_reply commandNotSupported) with m.
  unfold resolve_events.
  destruct (conn_Write env m); cbv match beta;
    do 2 eexists; (split; [reflexivity|]);
    (split; [reflexivity|]);
    (destruct (FQDN (DestAddr req) =? "")%string;
     repeat split; try reflexivity; intros; discriminate).
Qed.

Lemma handleConnect_dial_failure_witness :
  exists c e,
    handleConnect World.strict (mkRequest x05 ConnectCommand World.example_org)
    = ([EvDial (HostIP [x5d; xb8; xd8; x22], 81); EvAdd c 1;
        EvConnWrite (plain_reply x05)], Returned (Some e)).
Proof.
  apply (handleConnect_dial_failure World.strict
           (mkRequest x05 ConnectCommand World.example_org) World.refused).
  reflexivity.
Defined.

Lemma bind_is_refused_witness :
  exists tr out,
    handleRequest World.lenient (mkRequest x05 BindCommand World.example_org)
    = (tr, out)
    /\ tr = [EvAdd Socks5UnsupportedCommandErrors 1;
             EvConnWrite (plain_reply x07)]
    /\ conn_writes tr = [plain_reply x07]
    /\ relay_io tr = []
    /\ (conn_Write World.lenient (plain_reply x07) = None ->
        out = Returned None).
Proof.
  apply (bind_is_refused World.lenient
           (mkRequest x05 BindCommand World.example_org)
           (mkRequest x05 BindCommand World.example_org)).
  - reflexivity.
  - split; [reflexivity | left; reflexivity].
Defined.

(** C8, as stated, fails for the name "localhost" when resolving it
    fails: resolution comes before the policy check, and its failure is
    answered with a reply of code 4, ten bytes on the connection. *)
Lemma localhost_unresolved_is_answered :
  AllowLocalDestination World.strict = false
  /\ FQDN (DestAddr World.to_localhost) = "localhost"
  /\ exists tr e,
       handleRequest World.strict World.to_localhost = (tr, Returned (Some e))
       /\ conn_writes tr
          = [[x05; x04; x00; x01; x00; x00; x00; x00; x00; x00]].
Proof.
  split; [reflexivity|]. split; [reflexivity|].
  do 2 eexists. split; reflexivity.
Qed.

(** C8, amended.  With local destinations disabled, a request whose name,
    if it has one, resolves, and which then names "localhost" or has a
    loopback address, ends in an error with nothing written to the
    connection: the only call made is the resolver's. *)
Theorem local_destination_denied (env : Env) (req req' : Request) :
  AllowLocalDestination env = false ->
  resolved_request env req = Some req' ->
  FQDN (DestAddr req') = "localhost"
    \/ IP.IsLoopback (IP (DestAddr req')) = true ->
  exists e,
    handleRequest env req = (resolve_events req, Returned (Some e))
    /\ conn_writes (resolve_events req) = []
    /\ relay_io (resolve_events req) = [].
Proof.
  intros A R L.
  assert (G : negb (AllowLocalDestination env) && isLocalhostDest req' = true).
  { rewrite A. unfold isLocalhostDest.
    destruct L as [-> | ->]; [reflexivity | apply orb_true_r]. }
  rewrite (handleRequest_resolved _ _ _ R), G.
  eexists. split; [reflexivity|].
  unfold resolve_events.
  destruct (FQDN (DestAddr req) =? "")%string; split; reflexivity.
Qed.

Lemma local_destination_denied_witness :
  exists e,
    handleRequest World.strict World.to_loopback
    = (resolve_events World.to_loopback, Returned (Some e))
    /\ conn_writes (resolve_events World.to_loopback) = []
    /\ relay_io (resolve_events World.to_loopback) = [].
Proof.
  apply (local_destination_denied World.strict World.to_loopback
           World.to_loopback).
  - reflexivity.
  - reflexivity.
  - right. reflexivity.
Defined.

(** ** The error box under every interleaving *)

Section Interleavings.

Import ErrorBox.

Variables e_out e_in : error.

(** Whatever the schedule, the box holds the error stored last. *)
Lemma box_holds_last_store (sched : list pump) (s s' : state) :
  udpErr s = last_stored s ->
  run e_out e_in sched s = Ran s' ->
  udpErr s' = last_stored s'.
Proof.
  revert s. induction sched as [|p sched IH]; intros s I R.
  - simpl in R. now injection R as <-.
  - simpl in R. destruct (step e_out e_in p s) as [s1| |] eqn:S;
      try discriminate.
    apply (IH s1); [|exact R].
    unfold step in S.
    destruct p.
    + destruct (out_at s); [|discriminate].
      destruct (Store (udpErr s) e_out) as [b|] eqn:B; [|discriminate].
      injection S as <-. unfold last_stored. simpl.
      rewrite rev_app_distr. simpl.
      unfold Store in B. destruct (udpErr s).
      * destruct (_ =? _)%string; [|discriminate]. now injection B as <-.
      * now injection B as <-.
    + destruct (in_at s); [| |discriminate].
      * destruct (Load (udpErr s)); injection S as <-; exact I.
      * destruct (Store (udpErr s) e_in) as [b|] eqn:B; [|discriminate].
        injection S as <-. unfold last_stored. simpl.
        rewrite rev_app_distr. simpl.
        unfold Store in B. destruct (udpErr s).
        -- destruct (_ =? _)%string; [|discriminate]. now injection B as <-.
        -- now injection B as <-.
Qed.

(** The box the outbound pump is run with is the one the schedule has it
    find: after operations of the inbound pump only, the box holds what
    [at_outbound_store] says. *)
Lemma at_outbound_store_agrees (pre post : list pump) (s0 s : state) :
  Forall (fun p => p = Inbound) pre ->
  run e_out e_in pre s0 = Ran s ->
  at_outbound_store e_in (pre ++ Outbound :: post) s0 = udpErr s.
Proof.
  intros F. revert s0. induction F as [|p pre -> _ IH]; intros s0 R.
  - simpl in R. injection R as <-. reflexivity.
  - cbn [app at_outbound_store]. cbn [run] in R.
    change (step e_in e_in Inbound s0) with (step e_out e_in Inbound s0).
    destruct (step e_out e_in Inbound s0) as [s1| |]; try discriminate R.
    now apply IH.
Qed.

End Interleavings.

(** Once the listener is up and the reply written, what [handleAssociate]
    returns is what the box gives under the schedule, for the errors the
    two pumps end with. *)
Lemma handleAssociate_relays (env : Env) (req : Request) (port : Z)
    (e_out e_in : error) (ev_out ev_in : list event) :
  listen env = Listening port ->
  (forall m, conn_Write env m = None) ->
  UDPRelay.inbound_pump (udp_steps env) (udp_readErr env)
  = (ev_in, UDPRelay.Stop e_in) ->
  UDPRelay.outbound_pump
    (ErrorBox.at_outbound_store e_in (schedule env) ErrorBox.init)
    (tunnel_steps env) (tunnel_readErr env)
  = (ev_out, UDPRelay.Stop e_out) ->
  snd (handleAssociate env req)
  = ErrorBox.wait_and_return
      (ErrorBox.run e_out e_in (schedule env) ErrorBox.init).
Proof.
  intros HL HW HI HO. unfold handleAssociate. rewrite HL.
  rewrite (sendReply_ip4 _ _ _ [x00; x00; x00; x00]) by reflexivity.
  cbv zeta. rewrite HW, HI, HO. reflexivity.
Qed.

(** The schedules under which both pumps get through the box without a
    panic, and the stores each of them makes. *)
Lemma complete_schedules (e_out e_in : error) (sched : list ErrorBox.pump)
    (s : ErrorBox.state) :
  ErrorBox.run e_out e_in sched ErrorBox.init = ErrorBox.Ran s ->
  ErrorBox.out_at s = ErrorBox.OutReturned ->
  ErrorBox.in_at s = ErrorBox.InReturned ->
  (sched = [ErrorBox.Outbound; ErrorBox.Inbound]
   /\ ErrorBox.stores s = [(ErrorBox.Outbound, e_out)])
  \/ (sched = [ErrorBox.Inbound; ErrorBox.Outbound; ErrorBox.Inbound]
      /\ ErrorBox.stores s
         = [(ErrorBox.Outbound, e_out); (ErrorBox.Inbound, e_in)])
  \/ (sched = [ErrorBox.Inbound; ErrorBox.Inbound; ErrorBox.Outbound]
      /\ ErrorBox.stores s
         = [(ErrorBox.Inbound, e_in); (ErrorBox.Outbound, e_out)]).
Proof.
  intros R O I.
  destruct sched as [|[] [|[] [|[] [|p4 rest]]]]; simpl in R;
    repeat match type of R with
           | context [(?a =? ?b)%string] => destruct (a =? b)%string
           end;
    simpl in R; try discriminate R;
    try (destruct p4; simpl in R; discriminate R);
    injection R as <-; simpl in *; try discriminate;
    auto.
Qed.

(** C2 fails on the code.  The outbound pump stores its error without
    looking into the box, and the inbound pump looks first and stores
    afterwards, in two steps.  So for a session whose listener is up,
    whose reply has been written and whose pumps end with the errors
    [e_out] and [e_in], under every schedule that lets both pumps through
    the box without a panic, [handleAssociate] returns the error stored
    last.  There are three such schedules.  Under the first the outbound
    pump stores and the inbound pump finds the box full: one store.  Under
    the second the inbound pump finds the box empty, the outbound pump
    stores, and the inbound pump stores over it.  Under the third the
    inbound pump finds the box empty and stores, and the outbound pump
    stores over it.  Under the second and the third the error recorded
    first is replaced, and when the two errors differ it is not the one
    returned. *)
Theorem handleAssociate_returns_last_store (env : Env) (req : Request)
    (port : Z) (e_out e_in : error) (ev_out ev_in : list event)
    (s : ErrorBox.state) :
  listen env = Listening port ->
  (forall m, conn_Write env m = None) ->
  UDPRelay.inbound_pump (udp_steps env) (udp_readErr env)
  = (ev_in, UDPRelay.Stop e_in) ->
  UDPRelay.outbound_pump
    (ErrorBox.at_outbound_store e_in (schedule env) ErrorBox.init)
    (tunnel_steps env) (tunnel_readErr env)
  = (ev_out, UDPRelay.Stop e_out) ->
  ErrorBox.run e_out e_in (schedule env) ErrorBox.init = ErrorBox.Ran s ->
  ErrorBox.out_at s = ErrorBox.OutReturned ->
  ErrorBox.in_at s = ErrorBox.InReturned ->
  snd (handleAssociate env req) = Returned (ErrorBox.last_stored s)
  /\ ((schedule env = [ErrorBox.Outbound; ErrorBox.Inbound]
       /\ ErrorBox.stores s = [(ErrorBox.Outbound, e_out)])
      \/ (schedule env
          = [ErrorBox.Inbound; ErrorBox.Outbound; ErrorBox.Inbound]
          /\ ErrorBox.stores s
             = [(ErrorBox.Outbound, e_out); (ErrorBox.Inbound, e_in)])
      \/ (schedule env
          = [ErrorBox.Inbound; ErrorBox.Inbound; ErrorBox.Outbound]
          /\ ErrorBox.stores s
             = [(ErrorBox.Inbound, e_in); (ErrorBox.Outbound, e_out)]))
  /\ (e_out <> e_in ->
      schedule env <> [ErrorBox.Outbound; ErrorBox.Inbound] ->
      snd (handleAssociate env req) <> Returned (ErrorBox.first_stored s)).
Proof.
  intros HL HW HI HO R O I.
  pose proof (complete_schedules _ _ _ _ R O I) as C.
  assert (L : snd (handleAssociate env req)
              = Returned (ErrorBox.last_stored s)).
  { rewrite (handleAssociate_relays env req port e_out e_in ev_out ev_in
               HL HW HI HO), R.
    pose proof (box_holds_last_store e_out e_in (schedule env)
                  ErrorBox.init s eq_refl R) as B.
    unfold ErrorBox.wait_and_return. rewrite O, I.
    unfold ErrorBox.Load. rewrite B.
    destruct (ErrorBox.last_stored s) eqn:E; [reflexivity|].
    exfalso. unfold ErrorBox.last_stored in E.
    destruct C as [[_ C] | [[_ C] | [_ C]]]; rewrite C in E;
      discriminate E. }
  split; [exact L|]. split; [exact C|].
  intros N NS. rewrite L.
  unfold ErrorBox.last_stored, ErrorBox.first_stored.
  destruct C as [[C _] | [[_ C] | [_ C]]]; [contradiction | |];
    rewrite C; simpl; congruence.
Qed.

Lemma handleAssociate_returns_last_store_witness :
  snd (handleAssociate Session.inbound_fails_first Session.associate)
  = Returned
      (ErrorBox.last_stored
         (ErrorBox.mkState (Some io_EOF) ErrorBox.OutReturned
            ErrorBox.InReturned
            [(ErrorBox.Inbound, Session.closed_pipe);
             (ErrorBox.Outbound, io_EOF)]))
  /\ ((schedule Session.inbound_fails_first
       = [ErrorBox.Outbound; ErrorBox.Inbound]
       /\ ErrorBox.stores
            (ErrorBox.mkState (Some io_EOF) ErrorBox.OutReturned
               ErrorBox.InReturned
               [(ErrorBox.Inbound, Session.closed_pipe);
                (ErrorBox.Outbound, io_EOF)])
          = [(ErrorBox.Outbound, io_EOF)])
      \/ (schedule Session.inbound_fails_first
          = [ErrorBox.Inbound; ErrorBox.Outbound; ErrorBox.Inbound]
          /\ ErrorBox.stores
               (ErrorBox.mkState (Some io_EOF) ErrorBox.OutReturned
                  ErrorBox.InReturned
                  [(ErrorBox.Inbound, Session.closed_pipe);
                   (ErrorBox.Outbound, io_EOF)])
             = [(ErrorBox.Outbound, io_EOF);
                (ErrorBox.Inbound, Session.closed_pipe)])
      \/ (schedule Session.inbound_fails_first
          = [ErrorBox.Inbound; ErrorBox.Inbound; ErrorBox.Outbound]
          /\ ErrorBox.stores
               (ErrorBox.mkState (Some io_EOF) ErrorBox.OutReturned
                  ErrorBox.InReturned
                  [(ErrorBox.Inbound, Session.closed_pipe);
                   (ErrorBox.Outbound, io_EOF)])
             = [(ErrorBox.Inbound, Session.closed_pipe);
                (ErrorBox.Outbound, io_EOF)]))
  /\ (io_EOF <> Session.closed_pipe ->
      schedule Session.inbound_fails_first
      <> [ErrorBox.Outbound; ErrorBox.Inbound] ->
      snd (handleAssociate Session.inbound_fails_first Session.associate)
      <> Returned
           (ErrorBox.first_stored
              (ErrorBox.mkState (Some io_EOF) ErrorBox.OutReturned
                 ErrorBox.InReturned
                 [(ErrorBox.Inbound, Session.closed_pipe);
                  (ErrorBox.Outbound, io_EOF)]))).
Proof.
  apply (handleAssociate_returns_last_store Session.inbound_fails_first
           Session.associate 40000 io_EOF Session.closed_pipe
           [EvCloseUDP]
           [EvAdd UDPAssociateInPkts 1; EvAdd UDPAssociateInBytes 3;
            EvTunnelWrite [x01; x02; x03]]).
  - reflexivity.
  - intros m. reflexivity.
  - vm_compute. reflexivity.
  - vm_compute. reflexivity.
  - reflexivity.
  - reflexivity.
  - reflexivity.
Defined.

(** The session above, run: the inbound pump has stored its error first,
    the outbound pump stores its own after it, and [handleAssociate]
    returns the second. *)
Example later_outbound_error_is_returned :
  exists tr s,
    ErrorBox.run io_EOF Session.closed_pipe
      (schedule Session.inbound_fails_first) ErrorBox.init = ErrorBox.Ran s
    /\ ErrorBox.first_stored s = Some Session.closed_pipe
    /\ handleAssociate Session.inbound_fails_first Session.associate
       = (tr, Returned (Some io_EOF))
    /\ io_EOF <> Session.closed_pipe.
Proof.
  do 2 eexists. split; [reflexivity|]. split; [reflexivity|].
  split; [vm_compute; reflexivity | discriminate].
Qed.

Example inbound_store_over_outbound :
  ErrorBox.wait_and_return
    (ErrorBox.run io_EOF Session.closed_pipe
       [ErrorBox.Inbound; ErrorBox.Outbound; ErrorBox.Inbound] ErrorBox.init)
  = Returned (Some Session.closed_pipe).
Proof. reflexivity. Qed.

(** Two stores of errors of different concrete types: the second one
    panics. *)
Example store_of_another_type_panics :
  ErrorBox.wait_and_return
    (ErrorBox.run (Ext World.refused) Session.closed_pipe
       [ErrorBox.Inbound; ErrorBox.Inbound; ErrorBox.Outbound] ErrorBox.init)
  = Panicked.
Proof. reflexivity. Qed.

(** ** The outbound pump, one datagram at a time *)

Section OutboundPump.

Import UDPRelay.

Lemma read_into_length (buf d : list byte) :
  (length d <= length buf)%nat -> length (read_into buf d) = length buf.
Proof.
  intros L. unfold read_into.
  rewrite length_firstn, length_app, length_skipn. lia.
Qed.





End OutboundPump.





(** ** What the outbound pump writes *)

Section ExtraByte.

Import UDPRelay.

Lemma read_into_app (buf d : list byte) :
  len d <= len buf -> read_into buf d = d ++ skipn (length d) buf.
Proof.
  unfold len. intros L. unfold read_into. apply firstn_all2.
  rewrite length_app, length_skipn. lia.
Qed.

Lemma firstn_one_skipn (l : list byte) (k : nat) :
  (k < length l)%nat -> firstn 1 (skipn k l) = [nth k l x00].
Proof.
  revert l. induction k as [|k IH]; intros [|x l] L; simpl in *;
    try lia; [reflexivity|].
  apply IH. lia.
Qed.

Lemma outbound_ipv4_payload (held : ErrorBox.box) (buf0 : list byte)
    (st : out_step) (a b c d p1 p2 : byte) (data : list byte) :
  len buf0 = bufSize ->
  datagram st = [x00; x00; x00; x01; a; b; c; d; p1; p2] ++ data ->
  0 < len data -> len (datagram st) < bufSize ->
  snd (outbound_iter held buf0 st)
  = writeToUDP st (Some (data ++ [idx buf0 (len (datagram st))]))
      (mkNetAddr [a; b; c; d] (Z.shiftl (b2z p1) 8 + b2z p2)).
Proof.
  intros LB D LD LN.
  assert (N : len (datagram st) = 10 + len data).
  { rewrite D. unfold len. rewrite length_app. simpl length. lia. }
  unfold outbound_iter. cbn [snd].
  rewrite read_into_app by lia.
  set (n := len (datagram st)) in *.
  replace (n <=? 6) with false by (symmetry; apply Z.leb_gt; lia).
  remember (skipn (length (datagram st)) buf0) as tail eqn:T.
  assert (LT : len tail = bufSize - n).
  { subst tail. unfold len in *. rewrite length_skipn. lia. }
  assert (B : datagram st ++ tail
              = x00 :: x00 :: x00 :: x01 :: a :: b :: c :: d :: p1 :: p2
                  :: data ++ tail) by (rewrite D; reflexivity).
  rewrite B. clear B.
  set (buf := x00 :: x00 :: x00 :: x01 :: a :: b :: c :: d :: p1 :: p2
                :: data ++ tail).
  assert (L : len buf = bufSize).
  { unfold buf, len in *. simpl length. rewrite length_app. lia. }
  change (idx buf 0) with x00. change (idx buf 1) with x00.
  change (idx buf 2) with x00. change (idx buf 3) with x01.
  change (idx buf 8) with p1. change (idx buf 9) with p2.
  change (byte_eqb x00 x00) with true. change (byte_eqb x01 x01) with true.
  change (byte_eqb x01 x03) with false. change (byte_eqb x01 x04) with false.
  replace (n <=? 10) with false by (symmetry; apply Z.leb_gt; lia).
  cbn [negb orb andb].
  assert (S1 : slice buf 4 8 = Some [a; b; c; d]).
  { unfold slice. rewrite L. reflexivity. }
  assert (S2 : slice buf 10 (n + 1) = Some (data ++ [idx buf0 n])).
  { unfold slice. rewrite L.
    replace ((0 <=? 10) && (10 <=? n + 1) && (n + 1 <=? bufSize)) with true
      by (symmetry; rewrite !andb_true_iff, !Z.leb_le; lia).
    f_equal.
    change (skipn (Z.to_nat 10) buf) with (data ++ tail).
    replace (Z.to_nat (n + 1 - 10)) with (S (length data))
      by (unfold len in N; lia).
    rewrite firstn_app, firstn_all2 by lia.
    replace (S (length data) - length data)%nat with 1%nat by lia.
    subst tail. rewrite firstn_one_skipn by (unfold len in *; lia).
    unfold idx, n, len. now rewrite Nat2Z.id. }
  rewrite S1, S2. reflexivity.
Qed.

End ExtraByte.

(** C1 fails on the code.  The pump slices the buffer up to [n+1], not
    [n]: the UDP write carries DATA followed by the byte the buffer holds
    just after the datagram.  On a fresh buffer that byte is zero.  (The
    error box is empty when the pump comes to store the read error.) *)
Theorem outbound_write_has_extra_byte :
  UDPRelay.outbound_pump None [dns_query] io_EOF
  = ([EvWriteToUDP [xde; xad; x00] (mkNetAddr [x08; x08; x08; x08] 53);
      EvAdd UDPAssociateOutPkts 1; EvAdd UDPAssociateOutBytes 3; EvCloseUDP],
     UDPRelay.Stop io_EOF)
  /\ [xde; xad; x00] <> dns_data.
Proof.
  split; [vm_compute; reflexivity | discriminate].
Qed.

(** After a longer datagram the extra byte is a byte of that datagram:
    here the second write ends with [x42], the second byte of the data
    sent before. *)
Example outbound_write_leaks_earlier_data :
  udp_writes
    (fst (UDPRelay.outbound_pump None
            [UDPRelay.mkOutStep
               ([x00; x00; x00; x01; x08; x08; x08; x08; x00; x35]
                  ++ [x41; x42; x43; x44])
               (inl World.refused) (inr 5);
             UDPRelay.mkOutStep
               ([x00; x00; x00; x01; x01; x01; x01; x01; x00; x35] ++ [x5a])
               (inl World.refused) (inr 2)]
            io_EOF))
  = [([x41; x42; x43; x44; x00], mkNetAddr [x08; x08; x08; x08] 53);
     ([x5a; x42], mkNetAddr [x01; x01; x01; x01] 53)].
Proof. vm_compute. reflexivity. Qed.

(** The same extra byte after a name: DATA is [de] alone. *)
Example outbound_write_after_name :
  snd (UDPRelay.outbound_iter None (make UDPRelay.bufSize)
         (UDPRelay.mkOutStep
            [x00; x00; x00; x03; x01; x61; x00; x35; xde]
            (inr (mkNetAddr [x08; x08; x08; x08] 53)) (inr 2)))
  = ([EvResolveUDPAddr "a" 53;
      EvWriteToUDP [xde; x00] (mkNetAddr [x08; x08; x08; x08] 53);
      EvAdd UDPAssociateOutPkts 1; EvAdd UDPAssociateOutBytes 2],
     UDPRelay.Continue).
Proof. vm_compute. reflexivity. Qed.

(** A name of 251 bytes or more: [5+fqdnLen] is computed at type [uint8]
    and wraps below 5, so the slice [buf[5 : 5+fqdnLen]] panics. *)
Example outbound_long_name_panics :
  snd (UDPRelay.outbound_iter None (make UDPRelay.bufSize)
         (UDPRelay.mkOutStep
            ([x00; x00; x00; x03; xfb] ++ repeat x61 251 ++ [x00; x35; xde])
            (inr (mkNetAddr [x08; x08; x08; x08] 53)) (inr 1)))
  = ([], UDPRelay.Panic).
Proof. vm_compute. reflexivity. Qed.

(** * Further properties *)

(** ** Reading a destination *)

Section ReadingFacts.

Lemma ReadFull_inr (n : nat) (s s' b : list byte) :
  ReadFull n s = (inr b, s') -> s = b ++ s' /\ length b = n.
Proof.
  unfold ReadFull. destruct (Nat.leb_spec n (length s)) as [L|L].
  - intros [= <- <-]. split; [symmetry; apply firstn_skipn|].
    apply firstn_length_le. exact L.
  - destruct s; discriminate.
Qed.

Lemma ReadFull_inl (n : nat) (s s' : list byte) (e : error) :
  ReadFull n s = (inl e, s') ->
  s' = [] /\ (e = io_EOF \/ e = io_ErrUnexpectedEOF) /\ (length s < n)%nat.
Proof.
  unfold ReadFull. destruct (Nat.leb_spec n (length s)) as [L|L];
    [discriminate|].
  destruct s; intros [= <- <-]; auto.
Qed.

Lemma port_of_range (hi lo : byte) : 0 <= port_of hi lo <= 65535.
Proof.
  rewrite port_of_value.
  pose proof (b2z_range hi). pose proof (b2z_range lo). lia.
Qed.

Lemma port_of_bytes (hi lo : byte) :
  z2b (Z.shiftr (uint16 (port_of hi lo)) 8) = hi
  /\ z2b (Z.land (uint16 (port_of hi lo)) 255) = lo.
Proof.
  pose proof (port_of_range hi lo) as R.
  pose proof (b2z_range hi). pose proof (b2z_range lo).
  unfold uint16. rewrite Z.mod_small by lia. rewrite port_of_value.
  rewrite Z.shiftr_div_pow2 by lia. change (2 ^ 8) with 256.
  change 255 with (Z.ones 8). rewrite Z.land_ones by lia.
  change (2 ^ 8) with 256. split.
  - replace ((b2z hi * 256 + b2z lo) / 256) with (b2z hi)
      by (symmetry; rewrite Z.add_comm, Z.div_add by lia;
          rewrite Z.div_small by lia; lia).
    apply z2b_b2z.
  - rewrite Z.add_comm, Z.mod_add by lia. rewrite Z.mod_small by lia.
    apply z2b_b2z.
Qed.

Lemma string_of_list_byte_length (l : list byte) :
  String.length (string_of_list_byte l) = length l.
Proof.
  now rewrite <- list_byte_of_string_length,
    list_byte_of_string_of_list_byte.
Qed.

End ReadingFacts.

Lemma readAddrSpec_inr (s s' : stream) (a : AddrSpec) :
  readAddrSpec s = (inr a, s') ->
  exists enc, s = enc ++ s' /\ parsed a enc.
Proof.
  unfold readAddrSpec, bind. intros H.
  destruct (ReadFull 1 s) as [[e|t] s1] eqn:R1; [discriminate|].
  apply ReadFull_inr in R1 as [-> L1].
  destruct t as [|t [|]]; try discriminate L1.
  change (idx [t] 0) with t in H.
  destruct (byte_eqb t ipv4Address) eqn:E4.
  { apply byte_eqb_eq in E4. subst t.
    destruct (ReadFull 4 s1) as [[e|ip] s2] eqn:R2; [discriminate|].
    destruct (ReadFull 2 s2) as [[e|port] s3] eqn:R3; [discriminate|].
    apply ReadFull_inr in R2 as [-> L2]. apply ReadFull_inr in R3 as [-> L3].
    destruct port as [|hi [|lo [|]]]; try discriminate L3.
    injection H as <- <-.
    exists (x01 :: ip ++ [hi; lo]). split.
    - simpl. now rewrite <- app_assoc.
    - now apply parsed_ipv4. }
  destruct (byte_eqb t ipv6Address) eqn:E6.
  { apply byte_eqb_eq in E6. subst t.
    destruct (ReadFull 16 s1) as [[e|ip] s2] eqn:R2; [discriminate|].
    destruct (ReadFull 2 s2) as [[e|port] s3] eqn:R3; [discriminate|].
    apply ReadFull_inr in R2 as [-> L2]. apply ReadFull_inr in R3 as [-> L3].
    destruct port as [|hi [|lo [|]]]; try discriminate L3.
    injection H as <- <-.
    exists (x04 :: ip ++ [hi; lo]). split.
    - simpl. now rewrite <- app_assoc.
    - now apply parsed_ipv6. }
  destruct (byte_eqb t fqdnAddress) eqn:E3; [|discriminate].
  apply byte_eqb_eq in E3. subst t.
  destruct (ReadFull 1 s1) as [[e|l] s2] eqn:R2; [discriminate|].
  apply ReadFull_inr in R2 as [-> L2].
  destruct l as [|l [|]]; try discriminate L2.
  change (idx [l] 0) with l in H.
  destruct (ReadFull (Z.to_nat (b2z l)) s2) as [[e|name] s3] eqn:R3;
    [discriminate|].
  destruct (ReadFull 2 s3) as [[e|port] s4] eqn:R4; [discriminate|].
  apply ReadFull_inr in R3 as [-> L3]. apply ReadFull_inr in R4 as [-> L4].
  destruct port as [|hi [|lo [|]]]; try discriminate L4.
  injection H as <- <-.
  exists (x03 :: l :: name ++ [hi; lo]). split.
  - simpl. now rewrite <- app_assoc.
  - apply parsed_fqdn; [|reflexivity].
    unfold len. pose proof (b2z_range l). lia.
Qed.

(** X1.  When [readAddrSpec] succeeds it has taken from the front of the
    stream exactly one encoded address: the type byte, 4 or 16 address
    bytes or a length byte and that many name bytes, and two port bytes.
    The address has the bytes read as its IP or its name, never both, and
    a port between 0 and 65535. *)
Theorem readAddrSpec_takes_one_address (s s' : stream) (a : AddrSpec) :
  readAddrSpec s = (inr a, s') ->
  exists enc, s = enc ++ s' /\ parsed a enc /\ 0 <= Port a <= 65535.
Proof.
  intros H. destruct (readAddrSpec_inr _ _ _ H) as (enc & E & P).
  exists enc. split; [exact E|]. split; [exact P|].
  destruct P as [ip hi lo _ -> | ip hi lo _ -> | l name hi lo _ ->];
    apply port_of_range.
Qed.

Lemma readAddrSpec_takes_one_address_witness :
  exists enc,
    [x01; x7f; x00; x00; x01; x1f; x90; xaa; xbb] = enc ++ [xaa; xbb]
    /\ parsed (mkAddrSpec "" [x7f; x00; x00; x01] 8080) enc
    /\ 0 <= Port (mkAddrSpec "" [x7f; x00; x00; x01] 8080) <= 65535.
Proof.
  apply (readAddrSpec_takes_one_address
           [x01; x7f; x00; x00; x01; x1f; x90; xaa; xbb] [xaa; xbb]
           (mkAddrSpec "" [x7f; x00; x00; x01] 8080)).
  reflexivity.
Defined.



(** X3.  Reading an address and writing it back gives the bytes that were
    read: for an address [readAddrSpec] has parsed, other than an empty
    name or a 16-byte address of the form [::ffff:a.b.c.d], the address
    part of the reply [sendReply] writes for it, followed by what the
    parser left, is the stream the parser started from. *)
Theorem reply_of_parsed_address (w : list byte -> option error) (resp : byte)
    (s s' : stream) (a : AddrSpec) :
  readAddrSpec s = (inr a, s') ->
  FQDN a <> "" \/ len (IP a) = 4
    \/ (len (IP a) = 16 /\ IP.To4 (IP a) = None) ->
  exists msg,
    sendReply w resp (Some a) = ([EvConnWrite msg], w msg)
    /\ skipn 3 msg ++ s' = s.
Proof.
  intros H C. destruct (readAddrSpec_inr _ _ _ H) as (enc & -> & P).
  destruct P as [ip hi lo L E | ip hi lo L E | l name hi lo L E];
    subst a; simpl in C;
    destruct (port_of_bytes hi lo) as [Hhi Hlo].
  - assert (L4 : len ip = 4) by (unfold len; lia).
    eexists. split.
    + apply (sendReply_ip4 w resp (mkAddrSpec "" ip (port_of hi lo)) ip
               eq_refl (To4_of_4 _ L4)).
    + unfold reply_of. simpl Port. rewrite Hhi, Hlo. reflexivity.
  - assert (L16 : len ip = 16) by (unfold len; lia).
    destruct C as [N | [L4 | [_ T]]]; [now elim N | lia |].
    eexists. split.
    + apply (sendReply_ip6 w resp (mkAddrSpec "" ip (port_of hi lo)) ip
               eq_refl T (To16_of_16 _ L16)).
    + unfold reply_of. simpl Port. rewrite Hhi, Hlo. reflexivity.
  - destruct C as [N | [L4 | [L16 _]]]; [| discriminate L4 | discriminate L16].
    eexists. split.
    + apply (sendReply_fqdn w resp
               (mkAddrSpec (string_of_list_byte name) [] (port_of hi lo)) N).
    + unfold reply_of. simpl Port. simpl FQDN. rewrite Hhi, Hlo.
      rewrite string_of_list_byte_length, list_byte_of_string_of_list_byte.
      fold (len name). rewrite L, z2b_b2z. simpl.
      now rewrite <- app_assoc.
Qed.

Lemma reply_of_parsed_address_witness :
  exists msg,
    sendReply (fun _ => None) successReply
      (Some (mkAddrSpec "ab" [] 443))
    = ([EvConnWrite msg], None)
    /\ skipn 3 msg ++ [xee] = [x03; x02; x61; x62; x01; xbb; xee].
Proof.
  apply (reply_of_parsed_address (fun _ => None) successReply
           [x03; x02; x61; x62; x01; xbb; xee] [xee]
           (mkAddrSpec "ab" [] 443)).
  - reflexivity.
  - left. discriminate.
Defined.



(** ** Writing a reply: what is refused, what is written *)

(** X5.  [sendReply] refuses an address, and then writes nothing, exactly
    when the address is given, has no name, and has an IP of neither 4
    nor 16 bytes. *)
Theorem sendReply_refuses (w : list byte -> option error) (resp : byte)
    (a : AddrSpec) :
  ~ encodable a
  <-> sendReply w resp (Some a)
      = ([], Some (Errorf "failed to format address: %v" [ArgAddr (Some a)])).
Proof.
  unfold encodable. split.
  - intros N. unfold sendReply.
    destruct (string_dec (FQDN a) "") as [F|F]; [|tauto].
    rewrite F. simpl negb. cbv match.
    unfold IP.To4, IP.To16.
    destruct (Z.eqb_spec (len (IP a)) 4); [tauto|].
    destruct (Z.eqb_spec (len (IP a)) 16); [tauto|].
    reflexivity.
  - intros H [F | [L | L]].
    + rewrite sendReply_fqdn in H by exact F. discriminate H.
    + destruct (string_dec (FQDN a) "") as [E|E].
      * rewrite (sendReply_ip4 w resp a _ E (To4_of_4 _ L)) in H.
        discriminate H.
      * rewrite sendReply_fqdn in H by exact E. discriminate H.
    + destruct (string_dec (FQDN a) "") as [E|E].
      * destruct (IP.To4 (IP a)) as [ip4|] eqn:T.
        -- rewrite (sendReply_ip4 w resp a _ E T) in H. discriminate H.
        -- rewrite (sendReply_ip6 w resp a _ E T (To16_of_16 _ L)) in H.
           discriminate H.
      * rewrite sendReply_fqdn in H by exact E. discriminate H.
Qed.

(** X6.  Whatever the address, [sendReply] writes at most once, and what
    it writes is a whole reply: version 5, the code, a zero byte, a type
    byte, the address of that type - 4 bytes for type 1, 16 for type 4,
    a length byte and the name for type 3 - and two port bytes.  Its
    result is the outcome of that write. *)
Theorem sendReply_writes_whole_reply (w : list byte -> option error)
    (resp : byte) (addr : option AddrSpec) (tr : list event)
    (r : option error) :
  sendReply w resp addr = (tr, r) ->
  tr = []
  \/ exists t body hi lo,
       tr = [EvConnWrite ([x05; resp; x00; t] ++ body ++ [hi; lo])]
       /\ r = w ([x05; resp; x00; t] ++ body ++ [hi; lo])
       /\ ((t = x01 /\ length body = 4%nat)
           \/ (t = x04 /\ length body = 16%nat)
           \/ (t = x03
               /\ exists a, addr = Some a
                  /\ body = z2b (Z.of_nat (String.length (FQDN a)))
                              :: list_byte_of_string (FQDN a))).
Proof.
  intros H. destruct addr as [a|].
  - destruct (string_dec (FQDN a) "") as [F|F].
    + destruct (IP.To4 (IP a)) as [ip4|] eqn:T4.
      * rewrite (sendReply_ip4 w resp a _ F T4) in H. injection H as <- <-.
        right. do 4 eexists. split; [|split]; [reflexivity | reflexivity |].
        left. split; [reflexivity | apply (To4_length _ _ T4)].
      * destruct (IP.To16 (IP a)) as [ip16|] eqn:T16.
        -- rewrite (sendReply_ip6 w resp a _ F T4 T16) in H.
           injection H as <- <-.
           right. do 4 eexists. split; [|split]; [reflexivity | reflexivity |].
           right; left. split; [reflexivity|].
           unfold IP.To16 in T16.
           destruct (Z.eqb_spec (len (IP a)) 4) as [L|L].
           ++ rewrite (To4_of_4 _ L) in T4. discriminate T4.
           ++ destruct (Z.eqb_spec (len (IP a)) 16) as [L'|L'];
                [|discriminate T16].
              injection T16 as <-. unfold len in L'. lia.
        -- left. unfold sendReply in H. rewrite F, T4, T16 in H.
           now injection H as <- _.
    + rewrite sendReply_fqdn in H by exact F. injection H as <- <-.
      right. do 4 eexists. split; [|split]; [reflexivity | reflexivity |].
      right; right. split; [reflexivity|]. now exists a.
  - rewrite sendReply_nil in H. injection H as <- <-.
    right. exists x01, [x00; x00; x00; x00], x00, x00.
    split; [|split]; [reflexivity | reflexivity |]. left. now split.
Qed.

Lemma sendReply_writes_whole_reply_witness :
  [EvConnWrite (plain_reply x07)] = []
  \/ exists t body hi lo,
       [EvConnWrite (plain_reply x07)]
       = [EvConnWrite ([x05; x07; x00; t] ++ body ++ [hi; lo])]
       /\ @None error = (fun _ => None) ([x05; x07; x00; t] ++ body ++ [hi; lo])
       /\ ((t = x01 /\ length body = 4%nat)
           \/ (t = x04 /\ length body = 16%nat)
           \/ (t = x03
               /\ exists a, @None AddrSpec = Some a
                  /\ body = z2b (Z.of_nat (String.length (FQDN a)))
                              :: list_byte_of_string (FQDN a))).
Proof.
  apply (sendReply_writes_whole_reply (fun _ => None) x07 None
           [EvConnWrite (plain_reply x07)] None).
  reflexivity.
Defined.

(** X7.  The length byte of a name is its length modulo 256.  For a name
    of 256 bytes or more the reply is therefore not read back as it was
    written: [readAddrSpec] takes a name of [length mod 256] bytes, takes
    the next two bytes of the name for the port, and leaves the rest of
    the reply unread. *)
Theorem long_name_is_cut (w : list byte -> option error) (resp : byte)
    (a : AddrSpec) :
  let n := Z.of_nat (String.length (FQDN a)) in
  255 < n ->
  exists msg a' rest,
    sendReply w resp (Some a) = ([EvConnWrite msg], w msg)
    /\ readAddrSpec (skipn 3 msg) = (inr a', rest)
    /\ Z.of_nat (String.length (FQDN a')) = n mod 256
    /\ len rest = n - n mod 256.
Proof.
  intros n L.
  assert (N : FQDN a <> "").
  { intros E. subst n. rewrite E in L. simpl in L. lia. }
  set (name := list_byte_of_string (FQDN a)).
  assert (LN : len name = n).
  { unfold len, name. now rewrite list_byte_of_string_length. }
  set (m := n mod 256).
  assert (M : 0 <= m < 256) by (apply Z.mod_pos_bound; lia).
  assert (D : n = 256 * (n / 256) + m) by (apply Z.div_mod; lia).
  assert (Q : 1 <= n / 256) by (apply Z.div_le_lower_bound; lia).
  remember (firstn (Z.to_nat m) name) as n1 eqn:E1.
  remember (skipn (Z.to_nat m) name) as n2 eqn:E2.
  assert (S : name = n1 ++ n2) by (subst n1 n2; symmetry; apply firstn_skipn).
  assert (L1 : length n1 = Z.to_nat m).
  { subst n1. apply firstn_length_le. unfold len in LN. lia. }
  assert (L2 : len n2 = n - m).
  { subst n2. unfold len in *. rewrite length_skipn. lia. }
  clear E1 E2.
  destruct n2 as [|p1 [|p2 n3]];
    try (unfold len in L2; simpl in L2; lia).
  exists (reply_of resp fqdnAddress (z2b n :: name) (Port a)).
  exists (mkAddrSpec (string_of_list_byte n1) [] (port_of p1 p2)).
  exists (n3 ++ [z2b (Z.shiftr (uint16 (Port a)) 8);
                 z2b (Z.land (uint16 (Port a)) 255)]).
  split; [apply (sendReply_fqdn w resp a N)|].
  split; [|split].
  - unfold reply_of, fqdnAddress.
    change (skipn 3 (([socks5Version; resp; x00; x03] ++ ?l :: ?nm) ++ ?t))
      with (x03 :: l :: nm ++ t).
    rewrite S, <- app_assoc. simpl app.
    apply readAddrSpec_fqdn.
    rewrite b2z_z2b. exact L1.
  - simpl FQDN. rewrite string_of_list_byte_length. lia.
  - unfold len in *. rewrite length_app. simpl length in *. lia.
Qed.

Lemma long_name_is_cut_witness :
  exists msg a' rest,
    sendReply (fun _ => None) successReply
      (Some (mkAddrSpec (string_of_list_byte (repeat x61 256)) [] 80))
    = ([EvConnWrite msg], None)
    /\ readAddrSpec (skipn 3 msg) = (inr a', rest)
    /\ Z.of_nat (String.length (FQDN a'))
       = Z.of_nat
           (String.length
              (FQDN (mkAddrSpec (string_of_list_byte (repeat x61 256)) [] 80)))
         mod 256
    /\ len rest
       = Z.of_nat
           (String.length
              (FQDN (mkAddrSpec (string_of_list_byte (repeat x61 256)) [] 80)))
         - Z.of_nat
             (String.length
                (FQDN (mkAddrSpec (string_of_list_byte (repeat x61 256)) [] 80)))
           mod 256.
Proof.
  apply (long_name_is_cut (fun _ => None) successReply
           (mkAddrSpec (string_of_list_byte (repeat x61 256)) [] 80)).
  vm_compute. reflexivity.
Defined.

(** ** Dispatch: the other ways a request ends *)

(** X8.  A request that reaches dispatch with a command other than 1, 2
    or 3 gets one reply, with code 7, after the counter of unsupported
    commands has gone up by one; nothing is dialled or relayed, and the
    handler returns an error even when the reply has been written. *)
Theorem unknown_command_is_refused (env : Env) (req req' : Request) :
  reaches_dispatch env req req' ->
  Command req <> ConnectCommand -> Command req <> BindCommand ->
  Command req <> AssociateCommand ->
  exists e,
    handleRequest env req
    = (resolve_events req
         ++ [EvAdd Socks5UnsupportedCommandErrors 1;
             EvConnWrite (plain_reply x07)],
       Returned (Some e))
    /\ (conn_Write env (plain_reply x07) = None ->
        e = Errorf "unsupported command: %v" [ArgByte (Command req)]).
Proof.
  intros [R P] C1 C2 C3.
  assert (G : negb (AllowLocalDestination env) && isLocalhostDest req' = false).
  { destruct P as [-> | ->]; [reflexivity | apply andb_false_r]. }
  rewrite (handleRequest_resolved _ _ _ R), G.
  rewrite (resolved_request_Command _ _ _ R).
  apply byte_eqb_neq in C1, C2, C3. rewrite C1, C2, C3.
  rewrite sendReply_nil. cbv match beta.
  change (plain_reply commandNotSupported) with (plain_reply x07).
  destruct (conn_Write env (plain_reply x07)) as [e|];
    eexists; (split; [reflexivity|]); intros H;
    [discriminate H | reflexivity].
Qed.

Lemma unknown_command_is_refused_witness :
  exists e,
    handleRequest World.lenient (mkRequest x05 x09 World.example_org)
    = (resolve_events (mkRequest x05 x09 World.example_org)
         ++ [EvAdd Socks5UnsupportedCommandErrors 1;
             EvConnWrite (plain_reply x07)],
       Returned (Some e))
    /\ (conn_Write World.lenient (plain_reply x07) = None ->
        e = Errorf "unsupported command: %v"
              [ArgByte (Command (mkRequest x05 x09 World.example_org))]).
Proof.
  apply (unknown_command_is_refused World.lenient
           (mkRequest x05 x09 World.example_org)
           (mkRequest x05 x09 World.example_org)).
  - split; [reflexivity | left; reflexivity].
  - discriminate.
  - discriminate.
  - discriminate.
Defined.

(** X9.  When the name of a request does not resolve, the handler counts
    one resolution error, writes one reply with code 4 and returns an
    error - whatever the command and whatever the policy on local
    destinations: nothing is dialled, no listener is opened. *)
Theorem unresolved_name_is_answered (env : Env) (req : Request) (err : error) :
  FQDN (DestAddr req) <> "" ->
  Resolve env (FQDN (DestAddr req)) = inl err ->
  exists e,
    handleRequest env req
    = ([EvResolve (FQDN (DestAddr req)); EvAdd Socks5DNSResolveErrors 1;
        EvConnWrite (plain_reply x04)],
       Returned (Some e))
    /\ (conn_Write env (plain_reply x04) = None ->
        e = Wrapf "failed to resolve destination %q: %w"
              [ArgString (FQDN (DestAddr req))] err).
Proof.
  intros N R. apply string_eqb_empty in N.
  unfold handleRequest. rewrite N, R. simpl negb. cbv match.
  rewrite sendReply_nil.
  change (plain_reply hostUnreachable) with (plain_reply x04).
  destruct (conn_Write env (plain_reply x04)) as [e|];
    eexists; (split; [reflexivity|]); intros H;
    [discriminate H | reflexivity].
Qed.

Lemma unresolved_name_is_answered_witness :
  exists e,
    handleRequest World.strict World.to_localhost
    = ([EvResolve (FQDN (DestAddr World.to_localhost));
        EvAdd Socks5DNSResolveErrors 1; EvConnWrite (plain_reply x04)],
       Returned (Some e))
    /\ (conn_Write World.strict (plain_reply x04) = None ->
        e = Wrapf "failed to resolve destination %q: %w"
              [ArgString (FQDN (DestAddr World.to_localhost))]
              World.no_such_host).
Proof.
  apply (unresolved_name_is_answered World.strict World.to_localhost
           World.no_such_host).
  - discriminate.
  - reflexivity.
Defined.

(** X10.  A CONNECT request for a name is dialled at the address the
    resolver gave, with the port of the request: the name is resolved
    once, by the resolver, and is not what the dialer gets.  This holds
    when the resolved address is local too, if local destinations are
    allowed. *)
Theorem connect_dials_resolved_address (env : Env) (req : Request)
    (ip : IP.t) :
  Command req = ConnectCommand ->
  FQDN (DestAddr req) <> "" ->
  Resolve env (FQDN (DestAddr req)) = inr ip ->
  ip <> [] ->
  AllowLocalDestination env = true
    \/ (FQDN (DestAddr req) <> "localhost" /\ IP.IsLoopback ip = false) ->
  exists tr out,
    handleRequest env req
    = (EvResolve (FQDN (DestAddr req))
         :: EvDial (HostIP ip, Port (DestAddr req)) :: tr, out).
Proof.
  intros C N R I P.
  set (req' := mkRequest (Version req) (Command req)
                 (mkAddrSpec (FQDN (DestAddr req)) ip (Port (DestAddr req)))).
  assert (RR : resolved_request env req = Some req').
  { unfold resolved_request. apply string_eqb_empty in N. now rewrite N, R. }
  assert (G : negb (AllowLocalDestination env) && isLocalhostDest req' = false).
  { destruct P as [-> | [NL L]]; [reflexivity|].
    replace (isLocalhostDest req') with false; [apply andb_false_r|].
    unfold isLocalhostDest, req'. simpl. rewrite L, orb_false_r.
    symmetry. now apply String.eqb_neq. }
  rewrite (handleRequest_resolved _ _ _ RR), G.
  change (Command req') with (Command req). rewrite C.
  change (byte_eqb ConnectCommand ConnectCommand) with true. cbv match.
  unfold resolve_events. apply string_eqb_empty in N. rewrite N.
  assert (A : Address (DestAddr req') = (HostIP ip, Port (DestAddr req))).
  { unfold Address, req'. simpl.
    destruct ip; [now elim I | reflexivity]. }
  unfold handleConnect. rewrite A.
  destruct (DialContext env _) as [err|local].
  - destruct (if Contains (ext_text err) "refused" then _ else _) as [resp c].
    destruct (sendReply _ resp None). do 2 eexists. reflexivity.
  - destruct (sendReply _ successReply _) as [ev [e|]];
      do 2 eexists; reflexivity.
Qed.

Lemma connect_dials_resolved_address_witness :
  exists tr out,
    handleRequest Reachable.env Reachable.by_name
    = (EvResolve (FQDN (DestAddr Reachable.by_name))
         :: EvDial (HostIP [x5d; xb8; xd8; x22],
                    Port (DestAddr Reachable.by_name)) :: tr, out).
Proof.
  apply (connect_dials_resolved_address Reachable.env Reachable.by_name
           [x5d; xb8; xd8; x22]).
  - reflexivity.
  - discriminate.
  - reflexivity.
  - discriminate.
  - right. split; [discriminate | reflexivity].
Defined.

(** X11.  After a successful dial, the relay between the two connections
    is started exactly when the success reply has been written; its result
    is the handler's.  If the reply cannot be written, one handshake error
    is counted and nothing is relayed.  Either way the dialled connection
    is closed, once, and that is the last thing the handler does. *)
Theorem connect_relays_after_reply (env : Env) (req : Request)
    (local : NetAddr) :
  DialContext env (Address (DestAddr req)) = inr local ->
  let bound := mkAddrSpec "" (net_IP local) (net_Port local) in
  let sent := sendReply (conn_Write env) successReply (Some bound) in
  exists tr out,
    handleConnect env req
    = (EvDial (Address (DestAddr req)) :: tr ++ [EvCloseTarget], out)
    /\ (snd sent = None ->
        tr = fst sent ++ [EvBidiCopy] /\ out = Returned (BidiCopy env))
    /\ (forall e, snd sent = Some e ->
        tr = fst sent ++ [EvAdd Socks5HandshakeErrors 1]
        /\ out = Returned (Some (send_failed e)))
    /\ (In EvBidiCopy tr <-> snd sent = None)
    /\ ~ In EvCloseTarget tr.
Proof.
  intros D bound sent. unfold handleConnect. rewrite D. fold bound sent.
  assert (NB : ~ In EvBidiCopy (fst sent) /\ ~ In EvCloseTarget (fst sent)).
  { unfold sent, sendReply.
    destruct (if negb (FQDN bound =? "")%string then _ else _)
      as [e | [[t body] p]]; simpl; [tauto|].
    split; intros [H | []]; discriminate H. }
  destruct NB as [NB NC].
  destruct sent as [ev [e|]]; simpl in *.
  - exists (ev ++ [EvAdd Socks5HandshakeErrors 1]). eexists.
    split; [now rewrite <- app_assoc|].
    split; [intros H; discriminate H|].
    split; [intros e' [= <-]; now split|].
    split; [split; [|intros H; discriminate H]|].
    + intros H. apply in_app_or in H as [H | [H | []]];
        [contradiction | discriminate H].
    + intros H. apply in_app_or in H as [H | [H | []]];
        [contradiction | discriminate H].
  - exists (ev ++ [EvBidiCopy]). eexists.
    split; [now rewrite <- app_assoc|].
    split; [intros _; now split|].
    split; [intros e' H; discriminate H|].
    split; [split; [reflexivity|]|].
    + intros _. apply in_or_app. right. now left.
    + intros H. apply in_app_or in H as [H | [H | []]];
        [contradiction | discriminate H].
Qed.

Lemma connect_relays_after_reply_witness :
  exists tr out,
    handleConnect Reachable.env Reachable.by_name
    = (EvDial (Address (DestAddr Reachable.by_name))
         :: tr ++ [EvCloseTarget], out)
    /\ (snd (sendReply (conn_Write Reachable.env) successReply
               (Some (mkAddrSpec "" [x0a; x00; x00; x02] 50000))) = None ->
        tr = fst (sendReply (conn_Write Reachable.env) successReply
                    (Some (mkAddrSpec "" [x0a; x00; x00; x02] 50000)))
             ++ [EvBidiCopy]
        /\ out = Returned (BidiCopy Reachable.env))
    /\ (forall e,
        snd (sendReply (conn_Write Reachable.env) successReply
               (Some (mkAddrSpec "" [x0a; x00; x00; x02] 50000))) = Some e ->
        tr = fst (sendReply (conn_Write Reachable.env) successReply
                    (Some (mkAddrSpec "" [x0a; x00; x00; x02] 50000)))
             ++ [EvAdd Socks5HandshakeErrors 1]
        /\ out = Returned (Some (send_failed e)))
    /\ (In EvBidiCopy tr
        <-> snd (sendReply (conn_Write Reachable.env) successReply
                   (Some (mkAddrSpec "" [x0a; x00; x00; x02] 50000))) = None)
    /\ ~ In EvCloseTarget tr.
Proof.
  apply (connect_relays_after_reply Reachable.env Reachable.by_name
           (mkNetAddr [x0a; x00; x00; x02] 50000)).
  reflexivity.
Defined.

(** X12.  When the UDP listener of an associate request cannot be set up,
    the handler counts one error and returns an error without writing
    anything to the connection: the client gets no reply. *)
Theorem associate_setup_failure_is_silent (env : Env) (req : Request) :
  (forall p, listen env <> Listening p) ->
  exists tr e,
    handleAssociate env req = (tr, Returned (Some e))
    /\ conn_writes tr = []
    /\ udp_writes tr = []
    /\ filter (fun ev => match ev with EvAdd _ _ => true | _ => false end) tr
       = [EvAdd Socks5UDPAssociateErrors 1].
Proof.
  intros N. unfold handleAssociate.
  destruct (listen env) as [e | e | e | e | p];
    try (do 2 eexists; repeat split; reflexivity).
  now elim (N p).
Qed.

Lemma associate_setup_failure_is_silent_witness :
  exists tr e,
    handleAssociate Reachable.no_listener Session.associate
    = (tr, Returned (Some e))
    /\ conn_writes tr = []
    /\ udp_writes tr = []
    /\ filter (fun ev => match ev with EvAdd _ _ => true | _ => false end) tr
       = [EvAdd Socks5UDPAssociateErrors 1].
Proof.
  apply (associate_setup_failure_is_silent Reachable.no_listener
           Session.associate).
  intros p. discriminate.
Defined.

(** X13.  Once the listener is up on port [p], the first thing written to
    the connection is the success reply with bound address [0.0.0.0] and
    port [p].  If that write fails, one handshake error is counted and the
    handler returns: no pump is started, and the listener is not closed. *)
Theorem associate_replies_with_listener_port (env : Env) (req : Request)
    (p : Z) :
  listen env = Listening p -> 0 <= p <= 65535 ->
  exists hi lo tr out,
    handleAssociate env req
    = (EvListenUDP
         :: EvConnWrite [x05; x00; x00; x01; x00; x00; x00; x00; hi; lo]
         :: tr, out)
    /\ port_of hi lo = p
    /\ (forall e,
        conn_Write env [x05; x00; x00; x01; x00; x00; x00; x00; hi; lo]
        = Some e ->
        tr = [EvAdd Socks5HandshakeErrors 1]
        /\ out = Returned (Some (send_failed e))).
Proof.
  intros L R. unfold handleAssociate. rewrite L.
  rewrite (sendReply_ip4 _ _ _ [x00; x00; x00; x00]) by reflexivity.
  cbv zeta. unfold reply_of. simpl Port.
  exists (z2b (Z.shiftr (uint16 p) 8)), (z2b (Z.land (uint16 p) 255)).
  change (([socks5Version; successReply; x00; ipv4Address]
             ++ [x00; x00; x00; x00]) ++ [?h; ?l])
    with [x05; x00; x00; x01; x00; x00; x00; x00; h; l].
  destruct (conn_Write env _) as [e|] eqn:W.
  - do 2 eexists. split; [reflexivity|]. split; [now apply port_of_reply|].
    intros e' [= <-]. now split.
  - destruct (UDPRelay.inbound_pump _ _) as [ev_in c_in].
    destruct (UDPRelay.outbound_pump _ _ _) as [ev_out c_out].
    do 2 eexists. split; [reflexivity|]. split; [now apply port_of_reply|].
    intros e' H. discriminate H.
Qed.

Lemma associate_replies_with_listener_port_witness :
  exists hi lo tr out,
    handleAssociate Reachable.env Session.associate
    = (EvListenUDP
         :: EvConnWrite [x05; x00; x00; x01; x00; x00; x00; x00; hi; lo]
         :: tr, out)
    /\ port_of hi lo = 40000
    /\ (forall e,
        conn_Write Reachable.env
          [x05; x00; x00; x01; x00; x00; x00; x00; hi; lo] = Some e ->
        tr = [EvAdd Socks5HandshakeErrors 1]
        /\ out = Returned (Some (send_failed e))).
Proof.
  apply (associate_replies_with_listener_port Reachable.env
           Session.associate 40000).
  - reflexivity.
  - lia.
Defined.

(** ** The outbound pump: malformed datagrams, order, number of writes *)



Section OutboundLoop.

Import UDPRelay.

Lemma udp_writes_app (tr tr' : list event) :
  udp_writes (tr ++ tr') = udp_writes tr ++ udp_writes tr'.
Proof. apply flat_map_app. Qed.

Lemma writeToUDP_some (st : out_step) (p : list byte) (dst : NetAddr) :
  exists ev,
    writeToUDP st (Some p) dst = (ev, Continue)
    /\ udp_writes ev = [(p, dst)].
Proof.
  unfold writeToUDP. destruct (written st); eexists; split; reflexivity.
Qed.

(** What [store_then] gives: no UDP write, no closing of the socket, and
    [Stop] only for an error the box has taken. *)
Lemma store_then_ends (held : ErrorBox.box) (e : error) (after : list event) :
  udp_writes after = [] -> ~ In EvCloseUDP after ->
  udp_writes (fst (store_then held e after)) = []
  /\ ~ In EvCloseUDP (fst (store_then held e after))
  /\ snd (store_then held e after) <> Continue
  /\ (forall e', snd (store_then held e after) = Stop e' ->
      ErrorBox.Store held e' <> None).
Proof.
  intros U N. unfold store_then.
  destruct (ErrorBox.Store held e) eqn:S; simpl.
  - repeat split; [exact U | exact N | discriminate |].
    intros e' [= <-]. now rewrite S.
  - repeat split; [tauto | discriminate | discriminate].
Qed.

(** One turn makes at most one UDP write, never closes the socket, and
    stops only with an error the box has taken. *)
Lemma outbound_iter_one_write (held : ErrorBox.box) (buf : list byte)
    (st : out_step) :
  (length (udp_writes (fst (snd (outbound_iter held buf st)))) <= 1)%nat
  /\ ~ In EvCloseUDP (fst (snd (outbound_iter held buf st)))
  /\ (forall e, snd (snd (outbound_iter held buf st)) = Stop e ->
      ErrorBox.Store held e <> None).
Proof.
  assert (R : forall e,
             (length (udp_writes (fst (reject held e))) <= 1)%nat
             /\ ~ In EvCloseUDP (fst (reject held e))
             /\ (forall e', snd (reject held e) = Stop e' ->
                 ErrorBox.Store held e' <> None)).
  { intros e. unfold reject.
    destruct (store_then_ends held e [EvAdd Socks5UDPAssociateErrors 1])
      as (U & N & _ & S); [reflexivity | intros [H | []]; discriminate H|].
    rewrite U. repeat split; [simpl; lia | exact N | exact S]. }
  unfold outbound_iter, writeToUDP. cbn [snd].
  repeat match goal with
         | |- context [if ?c then _ else _] => destruct c
         | |- context [match slice ?a ?b ?c with _ => _ end] =>
             destruct (slice a b c)
         | |- context [match resolved ?s with _ => _ end] =>
             destruct (resolved s)
         | |- context [match written ?s with _ => _ end] =>
             destruct (written s)
         end;
    try apply R;
    simpl; (split; [lia|]); (split; [intuition discriminate|]);
    intros err H; discriminate H.
Qed.

End OutboundLoop.

Section OutboundOrder.

Import UDPRelay.

Variable held : ErrorBox.box.

Lemma outbound_loop_ipv4 (steps : list out_step) (dsts : list NetAddr)
    (readErr : error) :
  Forall2 to_ipv4 steps dsts ->
  forall buf, len buf = bufSize ->
  exists ev,
    outbound_loop held buf steps readErr
    = (ev, snd (store_then held readErr []))
    /\ map snd (udp_writes ev) = dsts.
Proof.
  induction 1 as [|st dst steps dsts T _ IH]; intros buf LB.
  - exists []. split; [|reflexivity]. cbn [outbound_loop].
    unfold store_then. destruct (ErrorBox.Store held readErr); reflexivity.
  - destruct T as [st a b c d p1 p2 data D LD LN].
    pose proof (outbound_ipv4_payload held buf st a b c d p1 p2 data
                  LB D LD LN) as P.
    destruct (writeToUDP_some st
                (data ++ [idx buf (len (datagram st))])
                (mkNetAddr [a; b; c; d] (Z.shiftl (b2z p1) 8 + b2z p2)))
      as (ev & W & U).
    rewrite W in P.
    assert (LB' : len (read_into buf (datagram st)) = bufSize).
    { unfold len in *. rewrite read_into_length; lia. }
    destruct (IH _ LB') as (ev' & L & M).
    exists (ev ++ ev'). cbn [outbound_loop].
    destruct (outbound_iter held buf st) as [buf' [ev0 c0]] eqn:E.
    assert (B : buf' = read_into buf (datagram st))
      by (apply (f_equal fst) in E; symmetry; exact E).
    simpl in P. injection P as -> ->. subst buf'. rewrite L.
    split; [reflexivity|].
    rewrite Z.shiftl_mul_pow2 in U by lia. change (2 ^ 8) with 256 in U.
    rewrite udp_writes_app, map_app, U, M. reflexivity.
Qed.

Lemma outbound_loop_ends (steps : list out_step) (readErr : error) :
  forall buf ev c,
    outbound_loop held buf steps readErr = (ev, c) ->
    c <> Continue
    /\ (length (udp_writes ev) <= length steps)%nat
    /\ ~ In EvCloseUDP ev
    /\ (forall e, c = Stop e -> ErrorBox.Store held e <> None).
Proof.
  induction steps as [|st steps IH]; intros buf ev c H.
  - cbn [outbound_loop] in H.
    destruct (store_then_ends held readErr []) as (U & N & C & S);
      [reflexivity | tauto |].
    rewrite H in U, N, C, S. simpl in U, N, C, S.
    rewrite U. repeat split; [exact C | simpl; lia | exact N | exact S].
  - cbn [outbound_loop] in H.
    pose proof (outbound_iter_one_write held buf st) as (W & N & S).
    destruct (outbound_iter held buf st) as [buf' [ev0 c0]].
    simpl in W, N, S.
    destruct c0.
    + destruct (outbound_loop held buf' steps readErr) as [ev' c'] eqn:L.
      injection H as <- <-.
      destruct (IH _ _ _ L) as (C & U & NC & SC).
      split; [exact C|]. split; [|split; [|exact SC]].
      * rewrite udp_writes_app, length_app. simpl. lia.
      * intros I. apply in_app_or in I. tauto.
    + injection H as <- <-.
      repeat split; [discriminate | simpl; lia | exact N | exact S].
    + injection H as <- <-.
      repeat split; [discriminate | simpl; lia | exact N | exact S].
Qed.

End OutboundOrder.

(** X15.  Well-formed datagrams for IPv4 destinations are forwarded one by
    one in the order they are read, each to the address and port of its
    own header, and a failed write to the network does not stop the
    pump: it ends only when the read from the tunnel fails, by storing
    that error, and then closes the UDP socket.  It has then stored the
    read error and returns, unless the box holds an error of another
    concrete type: the store then panics. *)
Theorem outbound_forwards_in_order (held : ErrorBox.box)
    (steps : list UDPRelay.out_step) (dsts : list NetAddr)
    (readErr : error) :
  Forall2 to_ipv4 steps dsts ->
  exists ev,
    UDPRelay.outbound_pump held steps readErr
    = (ev ++ [EvCloseUDP],
       match ErrorBox.Store held readErr with
       | Some _ => UDPRelay.Stop readErr
       | None => UDPRelay.Panic
       end)
    /\ map snd (udp_writes ev) = dsts.
Proof.
  intros F.
  destruct (outbound_loop_ipv4 held steps dsts readErr F
              (make UDPRelay.bufSize)) as (ev & L & M).
  { vm_compute. reflexivity. }
  exists ev. unfold UDPRelay.outbound_pump. rewrite L.
  split; [|exact M]. unfold UDPRelay.store_then.
  destruct (ErrorBox.Store held readErr); reflexivity.
Qed.

Lemma outbound_forwards_in_order_witness :
  exists ev,
    UDPRelay.outbound_pump None two_queries io_EOF
    = (ev ++ [EvCloseUDP],
       match ErrorBox.Store None io_EOF with
       | Some _ => UDPRelay.Stop io_EOF
       | None => UDPRelay.Panic
       end)
    /\ map snd (udp_writes ev)
       = [mkNetAddr [x08; x08; x08; x08] (b2z x00 * 256 + b2z x35);
          mkNetAddr [x01; x01; x01; x01] (b2z x00 * 256 + b2z x35)].
Proof.
  apply (outbound_forwards_in_order None two_queries
           [mkNetAddr [x08; x08; x08; x08] (b2z x00 * 256 + b2z x35);
            mkNetAddr [x01; x01; x01; x01] (b2z x00 * 256 + b2z x35)]
           io_EOF).
  constructor.
  - apply (to_ipv4_intro _ x08 x08 x08 x08 x00 x35 [xde; xad]);
      [reflexivity | vm_compute; reflexivity | vm_compute; reflexivity].
  - constructor; [|constructor].
    apply (to_ipv4_intro _ x01 x01 x01 x01 x00 x35 [xbe]);
      [reflexivity | vm_compute; reflexivity | vm_compute; reflexivity].
Defined.

(** X16.  Whatever the tunnel delivers and whatever the box holds, the
    outbound pump makes at most one UDP write per datagram read, and it
    ends by returning or by a panic.  It returns only after the box has
    taken its error.  Either way closing the UDP socket is the last thing
    it does, and it does so once: the deferred close runs when the pump
    returns and when it panics, and the socket is not closed before. *)
Theorem outbound_pump_ends (held : ErrorBox.box)
    (steps : list UDPRelay.out_step) (readErr : error) (ev : list event)
    (c : UDPRelay.control) :
  UDPRelay.outbound_pump held steps readErr = (ev, c) ->
  c <> UDPRelay.Continue
  /\ (length (udp_writes ev) <= length steps)%nat
  /\ (exists ev', ev = ev' ++ [EvCloseUDP] /\ ~ In EvCloseUDP ev')
  /\ (forall e, c = UDPRelay.Stop e -> ErrorBox.Store held e <> None).
Proof.
  unfold UDPRelay.outbound_pump. intros H.
  destruct (UDPRelay.outbound_loop _ _ steps readErr) as [ev0 c0] eqn:L.
  destruct (outbound_loop_ends _ _ _ _ _ _ L) as (C & U & N & S).
  injection H as <- <-.
  split; [exact C|]. split; [|split; [|exact S]].
  - rewrite udp_writes_app, length_app. simpl. lia.
  - now exists ev0.
Qed.

Lemma outbound_pump_ends_witness :
  UDPRelay.Stop UDPRelay.ErrUnsupported <> UDPRelay.Continue
  /\ (length (udp_writes [EvAdd Socks5UDPAssociateErrors 1; EvCloseUDP])
      <= length [fragment_one])%nat
  /\ (exists ev',
        [EvAdd Socks5UDPAssociateErrors 1; EvCloseUDP] = ev' ++ [EvCloseUDP]
        /\ ~ In EvCloseUDP ev')
  /\ (forall e, UDPRelay.Stop UDPRelay.ErrUnsupported = UDPRelay.Stop e ->
      ErrorBox.Store None e <> None).
Proof.
  apply (outbound_pump_ends None [fragment_one] io_EOF
           [EvAdd Socks5UDPAssociateErrors 1; EvCloseUDP]
           (UDPRelay.Stop UDPRelay.ErrUnsupported)).
  vm_compute. reflexivity.
Defined.

(** The same datagram when the box already holds an error of another
    concrete type: the store panics, no error is counted, and the
    deferred close still runs. *)
Example outbound_rejection_panics :
  UDPRelay.outbound_pump (Some (Ext World.refused)) [fragment_one] io_EOF
  = ([EvCloseUDP], UDPRelay.Panic).
Proof. vm_compute. reflexivity. Qed.

(** The same in a session: the inbound pump has stored an error of type
    [*net.OpError] before the outbound pump turns the datagram away.  The
    handler does not return, and no UDP-associate error is counted. *)
Example rejection_after_store_of_another_type :
  handleAssociate
    (mkEnv true (fun _ => inl World.no_such_host) (fun _ => inl World.refused)
       (fun _ => None) None (Listening 40000)
       [fragment_one] io_EOF
       [] (Ext World.refused)
       [ErrorBox.Inbound; ErrorBox.Inbound; ErrorBox.Outbound])
    Session.associate
  = ([EvListenUDP;
      EvConnWrite [x05; x00; x00; x01; x00; x00; x00; x00; x9c; x40];
      EvCloseUDP], Panicked).
Proof. vm_compute. reflexivity. Qed.

(** ** The inbound pump *)

Section InboundLoop.

Import UDPRelay.

Lemma slice_read_into (buf p : list byte) :
  len p <= len buf -> slice (read_into buf p) 0 (len p) = Some p.
Proof.
  intros L. rewrite read_into_app by exact L. unfold slice.
  replace ((0 <=? 0) && (0 <=? len p)
           && (len p <=? len (p ++ skipn (length p) buf))) with true.
  - rewrite Z.sub_0_r. simpl skipn. unfold len. rewrite Nat2Z.id.
    now rewrite firstn_app, Nat.sub_diag, firstn_all, app_nil_r.
  - symmetry. rewrite !andb_true_iff, !Z.leb_le. unfold len in *.
    rewrite length_app. lia.
Qed.

Lemma inbound_loop_relays (pre post : list in_step) (readErr : error) :
  Forall (fun st => len (packet st) <= bufSize /\ tunnel_written st = None)
    pre ->
  forall buf, len buf = bufSize ->
  inbound_loop buf pre readErr = (flat_map relayed pre, Stop readErr)
  /\ (forall st e,
      len (packet st) <= bufSize -> tunnel_written st = Some e ->
      inbound_loop buf (pre ++ st :: post) readErr
      = (flat_map relayed (pre ++ [st]), Stop e)).
Proof.
  induction 1 as [|st0 pre [L0 W0] _ IH]; intros buf LB.
  - split; [reflexivity|]. intros st e L W. cbn [app inbound_loop].
    rewrite slice_read_into by lia. rewrite W. reflexivity.
  - assert (LB' : len (read_into buf (packet st0)) = bufSize).
    { unfold len in *. rewrite read_into_length; lia. }
    destruct (IH _ LB') as [A B]. split.
    + cbn [inbound_loop]. rewrite slice_read_into by lia.
      rewrite W0, A. reflexivity.
    + intros st e L W. cbn [app inbound_loop].
      rewrite slice_read_into by lia. rewrite W0, (B st e L W). reflexivity.
Qed.

End InboundLoop.

(** X17.  The inbound pump writes each packet it reads from the UDP
    socket to the tunnel as it is, with no header put before it, in the
    order read, counting each packet and its length.  It goes on until
    the read fails, and ends with that error; or until a write to the
    tunnel fails, and ends with that error: the packets after that one
    are not read. *)
Theorem inbound_relays_verbatim (pre post : list UDPRelay.in_step)
    (readErr : error) :
  Forall (fun st => len (UDPRelay.packet st) <= UDPRelay.bufSize
                    /\ UDPRelay.tunnel_written st = None) pre ->
  UDPRelay.inbound_pump pre readErr
  = (flat_map relayed pre, UDPRelay.Stop readErr)
  /\ (forall st e,
      len (UDPRelay.packet st) <= UDPRelay.bufSize ->
      UDPRelay.tunnel_written st = Some e ->
      UDPRelay.inbound_pump (pre ++ st :: post) readErr
      = (flat_map relayed (pre ++ [st]), UDPRelay.Stop e)).
Proof.
  intros F. unfold UDPRelay.inbound_pump.
  apply inbound_loop_relays; [exact F|].
  vm_compute. reflexivity.
Qed.

Lemma inbound_relays_verbatim_witness :
  UDPRelay.inbound_pump [UDPRelay.mkInStep [xaa; xbb] None] io_EOF
  = (flat_map relayed [UDPRelay.mkInStep [xaa; xbb] None],
     UDPRelay.Stop io_EOF)
  /\ (forall st e,
      len (UDPRelay.packet st) <= UDPRelay.bufSize ->
      UDPRelay.tunnel_written st = Some e ->
      UDPRelay.inbound_pump
        ([UDPRelay.mkInStep [xaa; xbb] None] ++ st :: []) io_EOF
      = (flat_map relayed ([UDPRelay.mkInStep [xaa; xbb] None] ++ [st]),
         UDPRelay.Stop e)).
Proof.
  apply (inbound_relays_verbatim [UDPRelay.mkInStep [xaa; xbb] None] []
           io_EOF).
  constructor; [|constructor].
  split; [vm_compute; discriminate | reflexivity].
Defined.

(** ** The error box across concrete types *)



(** ** The chain forwarder *)

Section ForwarderFacts.

Import Forwarder.

Lemma bind_Ok {A B} (m : F A) (k : A -> F B) (w w1 : wires)
    (tr : list call) (a : A) :
  m w = (tr, Ok a, w1) ->
  bind m k w = (let '(tr', r, w2) := k a w1 in (tr ++ tr', r, w2)).
Proof. intros H. unfold bind. now rewrite H. Qed.

Lemma bind_Err {A B} (m : F A) (k : A -> F B) (w w1 : wires)
    (tr : list call) (e : error) :
  m w = (tr, Err e, w1) -> bind m k w = (tr, Err e, w1).
Proof. intros H. unfold bind. now rewrite H. Qed.

Lemma annotate_Ok {A} (format : string) (m : F A) (w w1 : wires)
    (tr : list call) (a : A) :
  m w = (tr, Ok a, w1) -> annotate format m w = (tr, Ok a, w1).
Proof. intros H. unfold annotate. now rewrite H. Qed.

Lemma annotate_Err {A} (format : string) (m : F A) (w w1 : wires)
    (tr : list call) (e : error) :
  m w = (tr, Err e, w1) ->
  annotate format m w = (tr, Err (Wrapf format [] e), w1).
Proof. intros H. unfold annotate. now rewrite H. Qed.

Lemma readClient_app (n : nat) (d rest s : list byte) :
  length d = n ->
  readClient n (mkWires (d ++ rest) s) = ([], Ok d, mkWires rest s).
Proof.
  intros L. unfold readClient. simpl. now rewrite (ReadFull_app n d rest L).
Qed.

Lemma readServer_app (n : nat) (d rest c : list byte) :
  length d = n ->
  readServer n (mkWires c (d ++ rest)) = ([], Ok d, mkWires c rest).
Proof.
  intros L. unfold readServer. simpl. now rewrite (ReadFull_app n d rest L).
Qed.

Lemma readAddress_client (t : byte) (what : string)
    (fl addr c s : list byte) :
  address_part t fl addr ->
  readAddress readClient t what (mkWires (fl ++ addr ++ c) s)
  = ([], Ok (fl, addr), mkWires c s).
Proof.
  intros [a -> L | a -> L | l a -> L]; unfold readAddress.
  - change (byte_eqb x01 ipv4Address) with true. cbv match.
    rewrite (bind_Ok _ _ _ _ _ _
               (annotate_Ok what _ _ _ _ _ (readClient_app 6 a c s L))).
    reflexivity.
  - change (byte_eqb x04 ipv4Address) with false.
    change (byte_eqb x04 fqdnAddress) with false.
    change (byte_eqb x04 ipv6Address) with true. cbv match.
    rewrite (bind_Ok _ _ _ _ _ _
               (annotate_Ok what _ _ _ _ _ (readClient_app 18 a c s L))).
    reflexivity.
  - change (byte_eqb x03 ipv4Address) with false.
    change (byte_eqb x03 fqdnAddress) with true. cbv match.
    rewrite (bind_Ok _ _ _ _ _ _
               (annotate_Ok _ _ _ _ _ _
                  (readClient_app 1 [l] (a ++ c) s eq_refl))).
    change (idx [l] 0) with l.
    assert (L' : length a = Z.to_nat (b2z (add8 l x02)))
      by (unfold len in L; lia).
    rewrite (bind_Ok _ _ _ _ _ _
               (annotate_Ok what _ _ _ _ _ (readClient_app _ a c s L'))).
    reflexivity.
Qed.

Lemma readAddress_server (t : byte) (what : string)
    (fl addr c s : list byte) :
  address_part t fl addr ->
  readAddress readServer t what (mkWires c (fl ++ addr ++ s))
  = ([], Ok (fl, addr), mkWires c s).
Proof.
  intros [a -> L | a -> L | l a -> L]; unfold readAddress.
  - change (byte_eqb x01 ipv4Address) with true. cbv match.
    rewrite (bind_Ok _ _ _ _ _ _
               (annotate_Ok what _ _ _ _ _ (readServer_app 6 a s c L))).
    reflexivity.
  - change (byte_eqb x04 ipv4Address) with false.
    change (byte_eqb x04 fqdnAddress) with false.
    change (byte_eqb x04 ipv6Address) with true. cbv match.
    rewrite (bind_Ok _ _ _ _ _ _
               (annotate_Ok what _ _ _ _ _ (readServer_app 18 a s c L))).
    reflexivity.
  - change (byte_eqb x03 ipv4Address) with false.
    change (byte_eqb x03 fqdnAddress) with true. cbv match.
    rewrite (bind_Ok _ _ _ _ _ _
               (annotate_Ok _ _ _ _ _ _
                  (readServer_app 1 [l] (a ++ s) c eq_refl))).
    change (idx [l] 0) with l.
    assert (L' : length a = Z.to_nat (b2z (add8 l x02)))
      by (unfold len in L; lia).
    rewrite (bind_Ok _ _ _ _ _ _
               (annotate_Ok what _ _ _ _ _ (readServer_app _ a s c L'))).
    reflexivity.
Qed.

(** With or without a length byte, what is put together is header, length
    byte if any, address. *)
Lemma joined (t : byte) (h fl addr : list byte) :
  address_part t fl addr ->
  (if negb (len fl =? 0) then h ++ fl else h) ++ addr = h ++ fl ++ addr.
Proof.
  intros [a _ _ | a _ _ | l a _ _]; simpl.
  - reflexivity.
  - reflexivity.
  - now rewrite <- app_assoc.
Qed.

End ForwarderFacts.

Section ForwarderRuns.

Import Forwarder.

Lemma add8_two (l : byte) : b2z (add8 l x02) = (b2z l + 2) mod 256.
Proof. unfold add8. rewrite b2z_z2b. reflexivity. Qed.

Lemma framed_parts (msg : list byte) :
  framed msg ->
  exists v c r t fl addr,
    msg = [v; c; r; t] ++ fl ++ addr /\ address_part t fl addr.
Proof.
  intros [v c r a L | v c r a L | v c r l a B L].
  - exists v, c, r, x01, [], a. split; [reflexivity | now apply part_ipv4].
  - exists v, c, r, x04, [], a. split; [reflexivity | now apply part_ipv6].
  - exists v, c, r, x03, [l], a. split; [reflexivity|].
    apply part_fqdn; [reflexivity|].
    rewrite add8_two, Z.mod_small; pose proof (b2z_range l); lia.
Qed.

Lemma last_two (l : list byte) :
  (2 <= length l)%nat ->
  exists pre x y, l = pre ++ [x; y].
Proof.
  intros L. exists (firstn (length l - 2) l).
  pose proof (firstn_skipn (length l - 2) l) as S.
  assert (L2 : length (skipn (length l - 2) l) = 2%nat)
    by (rewrite length_skipn; lia).
  destruct (skipn (length l - 2) l) as [|x [|y [|]]];
    try discriminate L2.
  exists x, y. now symmetry.
Qed.

(** The two stores of the port at the end of a reply. *)
Lemma store_hi (pre : list byte) (x y hi : byte) (w : wires) :
  store (pre ++ [x; y]) (len (pre ++ [x; y]) - 2) hi w
  = ([], Ok (pre ++ [hi; y]), w).
Proof.
  assert (L : len (pre ++ [x; y]) = len pre + 2).
  { unfold len. rewrite length_app. simpl. lia. }
  unfold store. rewrite L.
  replace ((0 <=? len pre + 2 - 2) && (len pre + 2 - 2 <? len pre + 2))
    with true
    by (symmetry; rewrite andb_true_iff, Z.leb_le, Z.ltb_lt;
        unfold len in *; lia).
  replace (Z.to_nat (len pre + 2 - 2)) with (length pre)
    by (unfold len in *; lia).
  rewrite firstn_app, Nat.sub_diag, firstn_all. simpl firstn.
  rewrite app_nil_r.
  replace (S (length pre)) with (length pre + 1)%nat by lia.
  rewrite skipn_app, skipn_all2 by lia.
  replace (length pre + 1 - length pre)%nat with 1%nat by lia.
  reflexivity.
Qed.

Lemma store_lo (pre : list byte) (x y hi lo : byte) (w : wires) :
  store (pre ++ [hi; y]) (len (pre ++ [x; y]) - 1) lo w
  = ([], Ok (pre ++ [hi; lo]), w).
Proof.
  assert (L : len (pre ++ [x; y]) = len pre + 2).
  { unfold len. rewrite length_app. simpl. lia. }
  assert (L' : len (pre ++ [hi; y]) = len pre + 2).
  { unfold len. rewrite length_app. simpl. lia. }
  unfold store. rewrite L, L'.
  replace ((0 <=? len pre + 2 - 1) && (len pre + 2 - 1 <? len pre + 2))
    with true
    by (symmetry; rewrite andb_true_iff, Z.leb_le, Z.ltb_lt;
        unfold len in *; lia).
  replace (Z.to_nat (len pre + 2 - 1)) with (length pre + 1)%nat
    by (unfold len in *; lia).
  rewrite firstn_app, firstn_all2 by lia.
  replace (length pre + 1 - length pre)%nat with 1%nat by lia.
  replace (S (length pre + 1)) with (length pre + 2)%nat by lia.
  rewrite skipn_app, skipn_all2 by lia.
  replace (length pre + 2 - length pre)%nat with 2%nat by lia.
  simpl. rewrite <- app_assoc. reflexivity.
Qed.

(** The exchange of a request and its reply, as the forwarder frames
    them, for a command other than ASSOCIATE. *)
Lemma conn_forward (nt : net) (v cmd r t v' rep r' t' : byte)
    (fl addr c fl' addr' s : list byte) :
  let req := [v; cmd; r; t] ++ fl ++ addr in
  let resp := [v'; rep; r'; t'] ++ fl' ++ addr' in
  address_part t fl addr -> address_part t' fl' addr' ->
  cmd <> AssociateCommand ->
  server_Write nt req = None ->
  proxySocks5ConnReq nt (mkWires (req ++ c) (resp ++ s))
  = ([ToServer req; ToClient resp],
     match client_Write nt resp with
     | None => Ok None
     | Some e =>
         Err (Wrapf
                "failed to write connection response to the socks5 client: %w"
                [] e)
     end,
     mkWires c s).
Proof.
  intros req resp P P' C W. unfold proxySocks5ConnReq.
  assert (R1 : readClient 4 (mkWires (req ++ c) (resp ++ s))
               = ([], Ok [v; cmd; r; t],
                  mkWires (fl ++ addr ++ c) (resp ++ s))).
  { unfold req. rewrite <- !app_assoc. now apply readClient_app. }
  rewrite (bind_Ok _ _ _ _ _ _ (annotate_Ok _ _ _ _ _ _ R1)).
  change (idx [v; cmd; r; t] 3) with t.
  change (idx [v; cmd; r; t] 1) with cmd.
  rewrite (bind_Ok _ _ _ _ _ _
             (readAddress_client t _ fl addr c (resp ++ s) P)).
  rewrite (joined t _ fl addr P). fold req.
  assert (WS : writeServer nt req (mkWires c (resp ++ s))
               = ([ToServer req], Ok tt, mkWires c (resp ++ s))).
  { unfold writeServer. now rewrite W. }
  rewrite (bind_Ok _ _ _ _ _ _ (annotate_Ok _ _ _ _ _ _ WS)).
  assert (R2 : readServer 4 (mkWires c (resp ++ s))
               = ([], Ok [v'; rep; r'; t'],
                  mkWires c (fl' ++ addr' ++ s))).
  { unfold resp. rewrite <- !app_assoc. now apply readServer_app. }
  rewrite (bind_Ok _ _ _ _ _ _ (annotate_Ok _ _ _ _ _ _ R2)).
  change (idx [v'; rep; r'; t'] 3) with t'.
  rewrite (bind_Ok _ _ _ _ _ _
             (readAddress_server t' _ fl' addr' c s P')).
  rewrite (joined t' _ fl' addr' P'). fold resp.
  apply byte_eqb_neq in C. rewrite C.
  unfold bind, annotate, writeClient.
  destruct (client_Write nt resp); reflexivity.
Qed.

(** The same for ASSOCIATE, once the forwarder's own listener is up. *)
Lemma conn_forward_associate (nt : net) (v r t v' rep r' t' : byte)
    (fl addr c fl' addr' s : list byte) (p : Z) :
  let req := [v; AssociateCommand; r; t] ++ fl ++ addr in
  let resp := [v'; rep; r'; t'] ++ fl' ++ addr' in
  let resp' :=
    firstn (length resp - 2) resp ++ [z2b (Z.shiftr p 8); z2b p] in
  address_part t fl addr -> address_part t' fl' addr' ->
  server_Write nt req = None ->
  udp nt = Listening p ->
  proxySocks5ConnReq nt (mkWires (req ++ c) (resp ++ s))
  = ([ToServer req; ListenUDP; ToClient resp'],
     match client_Write nt resp' with
     | None => Ok (Some p)
     | Some e =>
         Err (Wrapf
                "failed to write connection response to the socks5 client: %w"
                [] e)
     end,
     mkWires c s).
Proof.
  intros req resp resp' P P' W U. unfold proxySocks5ConnReq.
  assert (R1 : readClient 4 (mkWires (req ++ c) (resp ++ s))
               = ([], Ok [v; AssociateCommand; r; t],
                  mkWires (fl ++ addr ++ c) (resp ++ s))).
  { unfold req. rewrite <- !app_assoc. now apply readClient_app. }
  rewrite (bind_Ok _ _ _ _ _ _ (annotate_Ok _ _ _ _ _ _ R1)).
  change (idx [v; AssociateCommand; r; t] 3) with t.
  change (idx [v; AssociateCommand; r; t] 1) with AssociateCommand.
  rewrite (bind_Ok _ _ _ _ _ _
             (readAddress_client t _ fl addr c (resp ++ s) P)).
  rewrite (joined t _ fl addr P). fold req.
  assert (WS : writeServer nt req (mkWires c (resp ++ s))
               = ([ToServer req], Ok tt, mkWires c (resp ++ s))).
  { unfold writeServer. now rewrite W. }
  rewrite (bind_Ok _ _ _ _ _ _ (annotate_Ok _ _ _ _ _ _ WS)).
  assert (R2 : readServer 4 (mkWires c (resp ++ s))
               = ([], Ok [v'; rep; r'; t'],
                  mkWires c (fl' ++ addr' ++ s))).
  { unfold resp. rewrite <- !app_assoc. now apply readServer_app. }
  rewrite (bind_Ok _ _ _ _ _ _ (annotate_Ok _ _ _ _ _ _ R2)).
  change (idx [v'; rep; r'; t'] 3) with t'.
  rewrite (bind_Ok _ _ _ _ _ _
             (readAddress_server t' _ fl' addr' c s P')).
  rewrite (joined t' _ fl' addr' P'). fold resp.
  change (byte_eqb AssociateCommand AssociateCommand) with true. cbv match.
  assert (LU : listenUDP nt (mkWires c s) = ([ListenUDP], Ok p, mkWires c s)).
  { unfold listenUDP. rewrite U. reflexivity. }
  rewrite (bind_Ok _ _ _ _ _ _ LU).
  assert (L2 : (2 <= length resp)%nat) by (unfold resp; simpl; lia).
  destruct (last_two resp L2) as (pre & x & y & E).
  assert (E' : resp' = pre ++ [z2b (Z.shiftr p 8); z2b p]).
  { unfold resp'. rewrite E, length_app. simpl length.
    replace (length pre + 2 - 2)%nat with (length pre) by lia.
    now rewrite firstn_app, Nat.sub_diag, firstn_all, app_nil_r. }
  rewrite E', E.
  rewrite (bind_Ok _ _ _ _ _ _ (store_hi pre x y _ (mkWires c s))).
  rewrite (bind_Ok _ _ _ _ _ _ (store_lo pre x y _ _ (mkWires c s))).
  unfold bind, annotate, writeClient.
  destruct (client_Write nt _); reflexivity.
Qed.

End ForwarderRuns.

(** X19.  The greeting of the client - version 5, the number of methods,
    the methods - goes to the server as one message, byte for byte, and
    the two bytes the server answers go to the client as they are: the
    method the server chose is not looked at, and the result is [nil]
    whatever it is.  Nothing more is taken from either stream. *)
Theorem greeting_is_relayed (nt : Forwarder.net) (n r1 r2 : byte)
    (methods c s : list byte) :
  len methods = b2z n ->
  Forwarder.server_Write nt (x05 :: n :: methods) = None ->
  Forwarder.client_Write nt [r1; r2] = None ->
  Forwarder.proxySocks5AuthReq nt
    (Forwarder.mkWires (x05 :: n :: methods ++ c) (r1 :: r2 :: s))
  = ([Forwarder.ToServer (x05 :: n :: methods); Forwarder.ToClient [r1; r2]],
     Forwarder.Ok tt, Forwarder.mkWires c s).
Proof.
  intros L WS WC. unfold Forwarder.proxySocks5AuthReq.
  assert (R1 : Forwarder.readClient 1
                 (Forwarder.mkWires (x05 :: n :: methods ++ c)
                    (r1 :: r2 :: s))
               = ([], Forwarder.Ok [x05],
                  Forwarder.mkWires (n :: methods ++ c) (r1 :: r2 :: s)))
    by exact (readClient_app 1 [x05] (n :: methods ++ c) _ eq_refl).
  rewrite (bind_Ok _ _ _ _ _ _ (annotate_Ok _ _ _ _ _ _ R1)).
  change (idx [x05] 0) with x05.
  change (byte_eqb x05 socks5Version) with true.
  change (negb true) with false. cbv match.
  assert (R2 : Forwarder.readClient 1
                 (Forwarder.mkWires (n :: methods ++ c) (r1 :: r2 :: s))
               = ([], Forwarder.Ok [n],
                  Forwarder.mkWires (methods ++ c) (r1 :: r2 :: s)))
    by exact (readClient_app 1 [n] (methods ++ c) _ eq_refl).
  rewrite (bind_Ok _ _ _ _ _ _ (annotate_Ok _ _ _ _ _ _ R2)).
  change (idx [n] 0) with n.
  assert (L' : length methods = Z.to_nat (b2z n)) by (unfold len in L; lia).
  rewrite (bind_Ok _ _ _ _ _ _
             (annotate_Ok _ _ _ _ _ _ (readClient_app _ methods c _ L'))).
  cbv zeta.
  change ((([] ++ [x05]) ++ [n]) ++ methods) with (x05 :: n :: methods).
  unfold Forwarder.bind, Forwarder.annotate, Forwarder.writeServer.
  rewrite WS.
  change (Forwarder.readServer 2 (Forwarder.mkWires c (r1 :: r2 :: s)))
    with (@nil Forwarder.call, Forwarder.Ok [r1; r2], Forwarder.mkWires c s).
  cbv match. unfold Forwarder.writeClient. rewrite WC. reflexivity.
Qed.

Lemma greeting_is_relayed_witness :
  Forwarder.proxySocks5AuthReq open_net
    (Forwarder.mkWires (x05 :: x02 :: [x00; x02] ++ [x05; x01])
       (x05 :: xff :: []))
  = ([Forwarder.ToServer (x05 :: x02 :: [x00; x02]);
      Forwarder.ToClient [x05; xff]],
     Forwarder.Ok tt, Forwarder.mkWires [x05; x01] []).
Proof.
  apply (greeting_is_relayed open_net x02 x05 xff [x00; x02] [x05; x01] []);
    reflexivity.
Defined.

(** X20.  A connection request and its reply, each with the address its
    type byte announces, are relayed as they are when the command is not
    ASSOCIATE: the request goes to the server as one message, the reply
    to the client as one message, no byte changed, whatever the version
    bytes and the reply code are, and no UDP listener is opened. *)
Theorem request_and_reply_are_relayed (nt : Forwarder.net)
    (req resp c s : list byte) :
  framed req -> framed resp ->
  idx req 1 <> AssociateCommand ->
  Forwarder.server_Write nt req = None ->
  Forwarder.client_Write nt resp = None ->
  Forwarder.proxySocks5ConnReq nt (Forwarder.mkWires (req ++ c) (resp ++ s))
  = ([Forwarder.ToServer req; Forwarder.ToClient resp],
     Forwarder.Ok None, Forwarder.mkWires c s).
Proof.
  intros FQ FR C WS WC.
  destruct (framed_parts _ FQ) as (v & cmd & r & t & fl & addr & -> & P).
  destruct (framed_parts _ FR) as (v' & rep & r' & t' & fl' & addr' & -> & P').
  change (idx ([v; cmd; r; t] ++ fl ++ addr) 1) with cmd in C.
  rewrite (conn_forward nt v cmd r t v' rep r' t' fl addr c fl' addr' s
             P P' C WS).
  now rewrite WC.
Qed.

Lemma request_and_reply_are_relayed_witness :
  Forwarder.proxySocks5ConnReq open_net
    (Forwarder.mkWires
       ([x05; x01; x00; x01; x5d; xb8; xd8; x22; x00; x50] ++ [xaa])
       ([x05; x05; x00; x01; x00; x00; x00; x00; x00; x00] ++ []))
  = ([Forwarder.ToServer [x05; x01; x00; x01; x5d; xb8; xd8; x22; x00; x50];
      Forwarder.ToClient [x05; x05; x00; x01; x00; x00; x00; x00; x00; x00]],
     Forwarder.Ok None, Forwarder.mkWires [xaa] []).
Proof.
  apply (request_and_reply_are_relayed open_net
           [x05; x01; x00; x01; x5d; xb8; xd8; x22; x00; x50]
           [x05; x05; x00; x01; x00; x00; x00; x00; x00; x00] [xaa] []).
  - now apply framed_ipv4.
  - now apply framed_ipv4.
  - discriminate.
  - reflexivity.
  - reflexivity.
Defined.

(** X21.  For ASSOCIATE the forwarder opens its own UDP listener and
    relays the server's reply with the last two bytes - the port -
    replaced by the port of that listener, high byte first; every other
    byte of the reply, and its length, stay as the server sent them,
    whatever the reply code is.  The listener is what the call returns. *)
Theorem associate_reply_gets_local_port (nt : Forwarder.net)
    (req resp c s : list byte) (p : Z) :
  framed req -> framed resp ->
  idx req 1 = AssociateCommand ->
  Forwarder.udp nt = Listening p -> 0 <= p <= 65535 ->
  Forwarder.server_Write nt req = None ->
  (forall m, Forwarder.client_Write nt m = None) ->
  exists hi lo,
    Forwarder.proxySocks5ConnReq nt
      (Forwarder.mkWires (req ++ c) (resp ++ s))
    = ([Forwarder.ToServer req; Forwarder.ListenUDP;
        Forwarder.ToClient (firstn (length resp - 2) resp ++ [hi; lo])],
       Forwarder.Ok (Some p), Forwarder.mkWires c s)
    /\ b2z hi * 256 + b2z lo = p
    /\ length (firstn (length resp - 2) resp ++ [hi; lo]) = length resp.
Proof.
  intros FQ FR C U R WS WC.
  destruct (framed_parts _ FQ) as (v & cmd & r & t & fl & addr & -> & P).
  destruct (framed_parts _ FR) as (v' & rep & r' & t' & fl' & addr' & -> & P').
  change (idx ([v; cmd; r; t] ++ fl ++ addr) 1) with cmd in C. subst cmd.
  exists (z2b (Z.shiftr p 8)), (z2b p).
  rewrite (conn_forward_associate nt v r t v' rep r' t' fl addr c fl' addr' s
             p P P' WS U).
  rewrite WC. split; [reflexivity|]. split.
  - rewrite !b2z_z2b. rewrite Z.shiftr_div_pow2 by lia.
    change (2 ^ 8) with 256.
    rewrite (Z.mod_small (p / 256))
      by (split; [apply Z.div_pos | apply Z.div_lt_upper_bound]; lia).
    pose proof (Z.div_mod p 256). lia.
  - rewrite length_app, length_firstn. simpl. lia.
Qed.

Lemma associate_reply_gets_local_port_witness :
  exists hi lo,
    Forwarder.proxySocks5ConnReq open_net
      (Forwarder.mkWires
         ([x05; x03; x00; x01; x00; x00; x00; x00; x00; x00] ++ [])
         ([x05; x00; x00; x01; x00; x00; x00; x00; x9c; x40] ++ []))
    = ([Forwarder.ToServer [x05; x03; x00; x01; x00; x00; x00; x00; x00; x00];
        Forwarder.ListenUDP;
        Forwarder.ToClient
          (firstn
             (length [x05; x00; x00; x01; x00; x00; x00; x00; x9c; x40] - 2)
             [x05; x00; x00; x01; x00; x00; x00; x00; x9c; x40]
           ++ [hi; lo])],
       Forwarder.Ok (Some 40001), Forwarder.mkWires [] [])
    /\ b2z hi * 256 + b2z lo = 40001
    /\ length
         (firstn
            (length [x05; x00; x00; x01; x00; x00; x00; x00; x9c; x40] - 2)
            [x05; x00; x00; x01; x00; x00; x00; x00; x9c; x40]
          ++ [hi; lo])
       = length [x05; x00; x00; x01; x00; x00; x00; x00; x9c; x40].
Proof.
  apply (associate_reply_gets_local_port open_net
           [x05; x03; x00; x01; x00; x00; x00; x00; x00; x00]
           [x05; x00; x00; x01; x00; x00; x00; x00; x9c; x40] [] [] 40001).
  - now apply framed_ipv4.
  - now apply framed_ipv4.
  - reflexivity.
  - reflexivity.
  - lia.
  - reflexivity.
  - reflexivity.
Defined.

(** X22.  A request whose name has 254 or 255 bytes is cut: the number of
    bytes to read after the length byte, [len+2], is computed at type
    [byte] and comes out as 0 or 1.  The server gets the header, the
    length byte and at most one byte of the name; the rest of the name
    and the port stay unread on the client's stream. *)
Theorem long_name_request_is_cut (nt : Forwarder.net) (v cmd r l p1 p2 : byte)
    (name resp c s : list byte) :
  254 <= b2z l -> len name = b2z l ->
  cmd <> AssociateCommand -> framed resp ->
  let k := Z.to_nat (b2z l - 254) in
  let sent := [v; cmd; r; x03; l] ++ firstn k name in
  Forwarder.server_Write nt sent = None ->
  Forwarder.client_Write nt resp = None ->
  Forwarder.proxySocks5ConnReq nt
    (Forwarder.mkWires ([v; cmd; r; x03; l] ++ name ++ p1 :: p2 :: c)
       (resp ++ s))
  = ([Forwarder.ToServer sent; Forwarder.ToClient resp],
     Forwarder.Ok None,
     Forwarder.mkWires (skipn k name ++ p1 :: p2 :: c) s).
Proof.
  intros B L C FR k sent WS WC.
  destruct (framed_parts _ FR) as (v' & rep & r' & t' & fl' & addr' & -> & P').
  pose proof (b2z_range l) as RL.
  assert (P : address_part x03 [l] (firstn k name)).
  { apply part_fqdn; [reflexivity|].
    rewrite add8_two. unfold len in *. rewrite length_firstn.
    replace ((b2z l + 2) mod 256) with (b2z l - 254).
    - unfold k. lia.
    - symmetry. replace (b2z l + 2) with (b2z l - 254 + 1 * 256) by lia.
      rewrite Z_mod_plus_full. apply Z.mod_small. lia. }
  pose proof (conn_forward nt v cmd r x03 v' rep r' t' [l] (firstn k name)
                (skipn k name ++ p1 :: p2 :: c) fl' addr' s P P' C WS) as H.
  cbv zeta in H. rewrite WC in H. refine (eq_trans _ H).
  f_equal. f_equal.
  rewrite <- (firstn_skipn k name) at 1.
  simpl. now rewrite <- !app_assoc.
Qed.

Lemma long_name_request_is_cut_witness :
  Forwarder.proxySocks5ConnReq open_net
    (Forwarder.mkWires
       ([x05; x01; x00; x03; xfe] ++ repeat x61 254 ++ x00 :: x50 :: [])
       ([x05; x00; x00; x01; x00; x00; x00; x00; x00; x00] ++ []))
  = ([Forwarder.ToServer
        ([x05; x01; x00; x03; xfe]
           ++ firstn (Z.to_nat (b2z xfe - 254)) (repeat x61 254));
      Forwarder.ToClient [x05; x00; x00; x01; x00; x00; x00; x00; x00; x00]],
     Forwarder.Ok None,
     Forwarder.mkWires
       (skipn (Z.to_nat (b2z xfe - 254)) (repeat x61 254) ++ x00 :: x50 :: [])
       []).
Proof.
  apply (long_name_request_is_cut open_net x05 x01 x00 xfe x00 x50
           (repeat x61 254)
           [x05; x00; x00; x01; x00; x00; x00; x00; x00; x00] [] []).
  - vm_compute. discriminate.
  - vm_compute. reflexivity.
  - discriminate.
  - now apply framed_ipv4.
  - reflexivity.
  - reflexivity.
Defined.

(** X23.  An address type other than 1, 3, 4 ends the exchange with an
    error.  In the request: after the four header bytes, with nothing
    sent to the server.  In the reply: after the request has gone to the
    server, with nothing sent to the client. *)
Theorem unknown_type_ends_exchange (nt : Forwarder.net) (v cmd r t : byte)
    (c s : list byte) :
  t <> x01 -> t <> x03 -> t <> x04 ->
  Forwarder.proxySocks5ConnReq nt (Forwarder.mkWires (v :: cmd :: r :: t :: c) s)
  = ([], Forwarder.Err (Errorf "unsupported address type: %d" [ArgByte t]),
     Forwarder.mkWires c s)
  /\ (forall req v' rep r',
      framed req -> Forwarder.server_Write nt req = None ->
      Forwarder.proxySocks5ConnReq nt
        (Forwarder.mkWires (req ++ c) (v' :: rep :: r' :: t :: s))
      = ([Forwarder.ToServer req],
         Forwarder.Err (Errorf "unsupported address type: %d" [ArgByte t]),
         Forwarder.mkWires c s)).
Proof.
  intros N1 N3 N4. apply byte_eqb_neq in N1, N3, N4.
  assert (RA : forall read w,
             Forwarder.readAddress read t
               "failed to get destination address: %w" w
             = ([], Forwarder.Err
                      (Errorf "unsupported address type: %d" [ArgByte t]), w)
             /\ Forwarder.readAddress read t "failed to get bind address: %w" w
                = ([], Forwarder.Err
                         (Errorf "unsupported address type: %d" [ArgByte t]),
                   w)).
  { intros read w. unfold Forwarder.readAddress.
    change ipv4Address with x01. change fqdnAddress with x03.
    change ipv6Address with x04. rewrite N1, N3, N4. now split. }
  split.
  - unfold Forwarder.proxySocks5ConnReq.
    rewrite (bind_Ok _ _ _ _ _ _
               (annotate_Ok _ _ _ _ _ _
                  (readClient_app 4 [v; cmd; r; t] c s eq_refl))).
    change (idx [v; cmd; r; t] 3) with t.
    rewrite (bind_Err _ _ _ _ _ _ (proj1 (RA _ _))). reflexivity.
  - intros req v' rep r' FQ WS.
    destruct (framed_parts _ FQ) as (v0 & cmd0 & r0 & t0 & fl & addr & -> & P).
    unfold Forwarder.proxySocks5ConnReq.
    assert (R1 : Forwarder.readClient 4
                   (Forwarder.mkWires
                      (([v0; cmd0; r0; t0] ++ fl ++ addr) ++ c)
                      (v' :: rep :: r' :: t :: s))
                 = ([], Forwarder.Ok [v0; cmd0; r0; t0],
                    Forwarder.mkWires (fl ++ addr ++ c)
                      (v' :: rep :: r' :: t :: s))).
    { rewrite <- !app_assoc. now apply readClient_app. }
    rewrite (bind_Ok _ _ _ _ _ _ (annotate_Ok _ _ _ _ _ _ R1)).
    change (idx [v0; cmd0; r0; t0] 3) with t0.
    rewrite (bind_Ok _ _ _ _ _ _
               (readAddress_client t0 _ fl addr c _ P)).
    rewrite (joined t0 _ fl addr P).
    assert (W : Forwarder.writeServer nt ([v0; cmd0; r0; t0] ++ fl ++ addr)
                  (Forwarder.mkWires c (v' :: rep :: r' :: t :: s))
                = ([Forwarder.ToServer ([v0; cmd0; r0; t0] ++ fl ++ addr)],
                   Forwarder.Ok tt,
                   Forwarder.mkWires c (v' :: rep :: r' :: t :: s))).
    { unfold Forwarder.writeServer. now rewrite WS. }
    rewrite (bind_Ok _ _ _ _ _ _ (annotate_Ok _ _ _ _ _ _ W)).
    rewrite (bind_Ok _ _ _ _ _ _
               (annotate_Ok _ _ _ _ _ _
                  (readServer_app 4 [v'; rep; r'; t] s c eq_refl))).
    change (idx [v'; rep; r'; t] 3) with t.
    rewrite (bind_Err _ _ _ _ _ _ (proj2 (RA _ _))). reflexivity.
Qed.

Lemma unknown_type_ends_exchange_witness :
  Forwarder.proxySocks5ConnReq open_net
    (Forwarder.mkWires (x05 :: x01 :: x00 :: x02 :: [x7f]) [])
  = ([], Forwarder.Err (Errorf "unsupported address type: %d" [ArgByte x02]),
     Forwarder.mkWires [x7f] [])
  /\ (forall req v' rep r',
      framed req -> Forwarder.server_Write open_net req = None ->
      Forwarder.proxySocks5ConnReq open_net
        (Forwarder.mkWires (req ++ [x7f]) (v' :: rep :: r' :: x02 :: []))
      = ([Forwarder.ToServer req],
         Forwarder.Err (Errorf "unsupported address type: %d" [ArgByte x02]),
         Forwarder.mkWires [x7f] [])).
Proof.
  apply (unknown_type_ends_exchange open_net x05 x01 x00 x02 [x7f] []);
    discriminate.
Defined.

(** X24.  Whatever the client sends and however the exchange ends, the
    forwarder sends the server nothing but a whole greeting taken from the
    front of the client's stream - the version byte 5, a count, and that
    many methods - and sends the client nothing but the first two bytes of
    the server's stream, after the greeting has gone out.  A client whose
    first byte is not 5, or whose greeting is cut short, causes no write
    at all. *)
Theorem only_whole_greetings_are_sent (nt : Forwarder.net)
    (w w' : Forwarder.wires) (tr : list Forwarder.call)
    (res : Forwarder.result unit) :
  Forwarder.proxySocks5AuthReq nt w = (tr, res, w') ->
  tr = []
  \/ exists n methods c,
       Forwarder.from_client w = x05 :: n :: methods ++ c
       /\ len methods = b2z n
       /\ (tr = [Forwarder.ToServer (x05 :: n :: methods)]
           \/ exists r1 r2 s,
                Forwarder.from_server w = r1 :: r2 :: s
                /\ tr = [Forwarder.ToServer (x05 :: n :: methods);
                         Forwarder.ToClient [r1; r2]]).
Proof.
  destruct w as [cl sv].
  unfold Forwarder.proxySocks5AuthReq, Forwarder.bind, Forwarder.annotate,
    Forwarder.readClient, Forwarder.readServer, Forwarder.writeServer,
    Forwarder.writeClient, Forwarder.fail, Forwarder.ret.
  cbn [Forwarder.from_client Forwarder.from_server].
  destruct (ReadFull 1 cl) as [[e|version] cl1] eqn:R1.
  { intros [= <- _ _]. now left. }
  apply ReadFull_inr in R1 as [-> L1].
  destruct version as [|v [|]]; try discriminate L1.
  change (idx [v] 0) with v.
  destruct (byte_eqb v socks5Version) eqn:V; cbn [negb].
  2:{ intros [= <- _ _]. now left. }
  apply byte_eqb_eq in V. subst v.
  cbn [Forwarder.from_client Forwarder.from_server].
  destruct (ReadFull 1 cl1) as [[e|nMethods] cl2] eqn:R2.
  { intros [= <- _ _]. now left. }
  apply ReadFull_inr in R2 as [-> L2].
  destruct nMethods as [|n [|]]; try discriminate L2.
  change (idx [n] 0) with n.
  cbn [Forwarder.from_client Forwarder.from_server].
  destruct (ReadFull (Z.to_nat (b2z n)) cl2) as [[e|methods] cl3] eqn:R3.
  { intros [= <- _ _]. now left. }
  apply ReadFull_inr in R3 as [-> L3].
  cbn [Forwarder.from_client Forwarder.from_server].
  change ((([] ++ [socks5Version]) ++ [n]) ++ methods)
    with (x05 :: n :: methods).
  intros H. right. exists n, methods, cl3.
  split; [reflexivity|].
  split; [unfold len; pose proof (b2z_range n); lia|].
  destruct (Forwarder.server_Write nt (x05 :: n :: methods)).
  { simpl in H. left. congruence. }
  cbn [Forwarder.from_client Forwarder.from_server] in H.
  destruct (ReadFull 2 sv) as [[e|authResp] sv1] eqn:R4.
  { simpl in H. left. congruence. }
  apply ReadFull_inr in R4 as [-> L4].
  destruct authResp as [|r1 [|r2 [|]]]; try discriminate L4.
  right. exists r1, r2, sv1. split; [reflexivity|].
  destruct (Forwarder.client_Write nt [r1; r2]);
    simpl in H; congruence.
Qed.

Lemma only_whole_greetings_are_sent_witness :
  @nil Forwarder.call = []
  \/ exists n methods c,
       Forwarder.from_client (Forwarder.mkWires [x04; x01; x00] [x05; x00])
       = x05 :: n :: methods ++ c
       /\ len methods = b2z n
       /\ (@nil Forwarder.call = [Forwarder.ToServer (x05 :: n :: methods)]
           \/ exists r1 r2 s,
                Forwarder.from_server
                  (Forwarder.mkWires [x04; x01; x00] [x05; x00])
                = r1 :: r2 :: s
                /\ @nil Forwarder.call
                   = [Forwarder.ToServer (x05 :: n :: methods);
                      Forwarder.ToClient [r1; r2]]).
Proof.
  apply (only_whole_greetings_are_sent open_net
           (Forwarder.mkWires [x04; x01; x00] [x05; x00])
           (Forwarder.mkWires [x01; x00] [x05; x00]) []
           (Forwarder.Err
              (Errorf "unsupported SOCKS version: %v" [ArgByte x04]))).
  reflexivity.
Defined.

(** ** What counts as a local destination *)

Section LocalFacts.

Lemma bytes_eqb_eq (a b : list byte) : IP.bytes_eqb a b = true <-> a = b.
Proof.
  revert b. induction a as [|x a IH]; intros [|y b]; simpl;
    try (split; [discriminate | discriminate]); [tauto|].
  rewrite andb_true_iff, byte_eqb_eq, IH.
  split; [intros [-> ->]; reflexivity | intros [= -> ->]; now split].
Qed.

End LocalFacts.

(** X25.  [isLocalhostDest] holds for exactly these destinations: the
    name is "localhost", byte for byte; or the IP is a 4-byte address
    [127.x.y.z]; or it is such an address in the 16-byte form
    [::ffff:127.x.y.z]; or it is [::1]. *)
Theorem local_destinations (req : Request) :
  isLocalhostDest req = true
  <-> FQDN (DestAddr req) = "localhost"
      \/ (exists a b c, IP (DestAddr req) = [x7f; a; b; c])
      \/ (exists a b c,
            IP (DestAddr req) = IP.v4InV6Prefix ++ [x7f; a; b; c])
      \/ IP (DestAddr req) = IP.IPv6loopback.
Proof.
  unfold isLocalhostDest. rewrite orb_true_iff, String.eqb_eq.
  set (ip := IP (DestAddr req)).
  assert (L : IP.IsLoopback ip = true
              <-> (exists a b c, ip = [x7f; a; b; c])
                  \/ (exists a b c, ip = IP.v4InV6Prefix ++ [x7f; a; b; c])
                  \/ ip = IP.IPv6loopback); [|tauto].
  clearbody ip. split.
  - unfold IP.IsLoopback, IP.To4.
    destruct (Z.eqb_spec (len ip) 4) as [L4|L4].
    + destruct ip as [|a0 [|a1 [|a2 [|a3 [|]]]]];
        try (unfold len in L4; simpl length in L4; lia).
      change (idx [a0; a1; a2; a3] 0) with a0.
      rewrite byte_eqb_eq. intros ->. left. now exists a1, a2, a3.
    + destruct (Z.eqb_spec (len ip) 16) as [L16|L16]; cbn [andb].
      * destruct ip as [|b0 [|b1 [|b2 [|b3 [|b4 [|b5 [|b6 [|b7 [|b8 [|b9
          [|b10 [|b11 [|b12 [|b13 [|b14 [|b15 [|]]]]]]]]]]]]]]]]];
          try (unfold len in L16; simpl length in L16; lia).
        destruct (IP.isZeros _ && _ && _) eqn:M.
        -- change (idx (firstn 4 (skipn 12
                     [b0; b1; b2; b3; b4; b5; b6; b7; b8; b9; b10; b11;
                      b12; b13; b14; b15])) 0) with b12.
           rewrite byte_eqb_eq. intros ->.
           right; left. exists b13, b14, b15.
           apply andb_true_iff in M as [M M11].
           apply andb_true_iff in M as [M M10].
           change (idx _ 10) with b10 in M10.
           change (idx _ 11) with b11 in M11.
           apply byte_eqb_eq in M10, M11. subst b10 b11.
           unfold IP.isZeros in M. cbn [firstn forallb] in M.
           repeat (apply andb_true_iff in M as [?Z M]).
           repeat match goal with
                  | H : byte_eqb x00 _ = true |- _ =>
                      apply byte_eqb_eq in H; subst
                  end.
           reflexivity.
        -- rewrite bytes_eqb_eq. tauto.
      * rewrite bytes_eqb_eq. tauto.
  - intros [(a & b & c & ->) | [(a & b & c & ->) | ->]]; reflexivity.
Qed.

(** ** When a handler returns nil *)

Section NilResults.

Lemma sendReply_nil_events (w : list byte -> option error) (code : byte) :
  fst (sendReply w code None) = [EvConnWrite (plain_reply code)].
Proof. reflexivity. Qed.

Lemma handleAssociate_not_nil (env : Env) (req : Request) :
  snd (handleAssociate env req) <> Returned None.
Proof.
  unfold handleAssociate.
  destruct (listen env); try (simpl; discriminate).
  destruct (sendReply _ _ _) as [ev [e|]]; [simpl; discriminate|].
  destruct (UDPRelay.inbound_pump _ _) as [ev_in c_in].
  destruct (UDPRelay.outbound_pump _ _ _) as [ev_out c_out].
  cbn [snd].
  destruct c_out; try discriminate. destruct c_in; try discriminate.
  unfold ErrorBox.wait_and_return.
  destruct (ErrorBox.run _ _ _ _) as [s| |]; try discriminate.
  destruct (ErrorBox.out_at s), (ErrorBox.in_at s); try discriminate.
  destruct (ErrorBox.Load _); discriminate.
Qed.

Lemma handleConnect_nil (env : Env) (req : Request) (tr : list event) :
  handleConnect env req = (tr, Returned None) ->
  BidiCopy env = None /\ In EvBidiCopy tr.
Proof.
  unfold handleConnect.
  destruct (DialContext env _) as [err|local].
  - destruct (if Contains _ _ then _ else _) as [resp c].
    destruct (sendReply _ resp None) as [ev [e|]]; discriminate.
  - destruct (sendReply _ _ _) as [ev [e|]]; [discriminate|].
    intros [= <- B]. split; [exact B|].
    right. apply in_or_app. right. now left.
Qed.

End NilResults.

(** X26.  [handleRequest] returns [nil] in two cases only: a BIND request
    that has been answered with code 7, and a CONNECT request whose relay
    has run and ended without error.  Every other request, an ASSOCIATE
    session included, ends in an error or does not return. *)
Theorem nil_means_bind_or_finished_relay (env : Env) (req : Request)
    (tr : list event) :
  handleRequest env req = (tr, Returned None) ->
  (Command req = BindCommand /\ conn_writes tr = [plain_reply x07])
  \/ (Command req = ConnectCommand /\ BidiCopy env = None
      /\ In EvBidiCopy tr).
Proof.
  intros H.
  destruct (resolved_request env req) as [req'|] eqn:R.
  - rewrite (handleRequest_resolved _ _ _ R) in H.
    pose proof (resolved_request_Command _ _ _ R) as C.
    destruct (negb (AllowLocalDestination env) && isLocalhostDest req');
      [discriminate H|].
    rewrite C in H.
    destruct (byte_eqb (Command req) ConnectCommand) eqn:E1.
    { apply byte_eqb_eq in E1. right.
      destruct (handleConnect env req') as [ev out] eqn:HC.
      injection H as <- ->.
      destruct (handleConnect_nil _ _ _ HC) as [B I].
      split; [exact E1|]. split; [exact B|].
      apply in_or_app. now right. }
    destruct (byte_eqb (Command req) BindCommand) eqn:E2.
    { apply byte_eqb_eq in E2. left. split; [exact E2|].
      unfold handleBind in H. rewrite sendReply_nil in H.
      destruct (conn_Write env _); [discriminate H|].
      injection H as <-. unfold resolve_events.
      destruct (FQDN (DestAddr req) =? "")%string; reflexivity. }
    destruct (byte_eqb (Command req) AssociateCommand) eqn:E3.
    { exfalso. pose proof (handleAssociate_not_nil env req') as N.
      destruct (handleAssociate env req') as [ev out].
      injection H as _ ->. now apply N. }
    rewrite sendReply_nil in H.
    destruct (conn_Write env _); discriminate H.
  - exfalso. unfold resolved_request in R. unfold handleRequest in H.
    destruct (FQDN (DestAddr req) =? "")%string; [discriminate R|].
    simpl negb in H. cbv match in H.
    destruct (Resolve env _); [|discriminate R].
    rewrite sendReply_nil in H.
    destruct (conn_Write env _); discriminate H.
Qed.

Lemma nil_means_bind_or_finished_relay_witness :
  (Command (mkRequest x05 BindCommand World.example_org) = BindCommand
   /\ conn_writes
        [EvAdd Socks5UnsupportedCommandErrors 1; EvConnWrite (plain_reply x07)]
      = [plain_reply x07])
  \/ (Command (mkRequest x05 BindCommand World.example_org) = ConnectCommand
      /\ BidiCopy World.lenient = None
      /\ In EvBidiCopy
           [EvAdd Socks5UnsupportedCommandErrors 1;
            EvConnWrite (plain_reply x07)]).
Proof.
  apply (nil_means_bind_or_finished_relay World.lenient
           (mkRequest x05 BindCommand World.example_org)
           [EvAdd Socks5UnsupportedCommandErrors 1;
            EvConnWrite (plain_reply x07)]).
  reflexivity.
Defined.
